(** * Conversation session controller of the Copilot-style chat client

    A shallow embedding of [copilot-script-fixed.js]: the application state,
    the cached DOM elements the controller reads and writes, the service
    tables, [validateEmail], [selectService], [sendMessage], [callAPI],
    [addMessage], [showTyping], [showError] and [resetToWelcome].

    [sendMessage] is an [async] function.  It runs up to the [fetch] call of
    [callAPI] in one turn of the event loop and is resumed when the
    transport settles; in between, other handlers may run.  The embedding
    therefore keeps the requests that are in flight in the state and gives
    the resumption as a separate transition. *)

From Stdlib Require Import List NArith Bool Ascii String Lia Arith.
From Stdlib Require Import DecimalString.
Import ListNotations.

Set Warnings "-register-all".
Local Open Scope N_scope.

(** ** Strings

    A JavaScript string is a sequence of UTF-16 code units. *)

Module JsString.

Definition jsstring : Type := list N.

(** The code units of an ASCII literal of the source. *)
Definition lit (s : string) : jsstring :=
  map N_of_ascii (list_ascii_of_string s).

Fixpoint eqb (a b : jsstring) : bool :=
  match a, b with
  | [], [] => true
  | x :: a', y :: b' => (x =? y) && eqb a' b'
  | _, _ => false
  end.

(** WhiteSpace and LineTerminator code points: the class [\s] of a regular
    expression, and what [String.prototype.trim] strips. *)
Definition is_space (c : N) : bool :=
  (c =? 9) || (c =? 10) || (c =? 11) || (c =? 12) || (c =? 13) ||
  (c =? 32) || (c =? 160) || (c =? 5760) ||
  ((8192 <=? c) && (c <=? 8202)) ||
  (c =? 8232) || (c =? 8233) || (c =? 8239) || (c =? 8287) ||
  (c =? 12288) || (c =? 65279).

Fixpoint trim_start (s : jsstring) : jsstring :=
  match s with
  | c :: s' => if is_space c then trim_start s' else s
  | [] => []
  end.

Definition trim_end (s : jsstring) : jsstring :=
  rev (trim_start (rev s)).

(** [s.trim()] *)
Definition trim (s : jsstring) : jsstring := trim_end (trim_start s).

Fixpoint starts_with (p s : jsstring) : bool :=
  match p, s with
  | [], _ => true
  | x :: p', y :: s' => (x =? y) && starts_with p' s'
  | _ :: _, [] => false
  end.

(** [s.includes(sub)] *)
Fixpoint includes (s sub : jsstring) : bool :=
  starts_with sub s ||
  match s with
  | [] => false
  | _ :: s' => includes s' sub
  end.

(** [parts.join(sep)] on parts that are already strings. *)
Fixpoint join (sep : jsstring) (parts : list jsstring) : jsstring :=
  match parts with
  | [] => []
  | [p] => p
  | p :: rest => p ++ sep ++ join sep rest
  end.

(** The decimal digits of a non-negative integer, as a template literal
    prints it. *)
Definition of_N (n : N) : jsstring :=
  lit (NilZero.string_of_uint (N.to_uint n)).

End JsString.
Import JsString.

(** ** Regular expressions

    The fragment of the regular-expression language that [validateEmail]
    uses, matched against a whole string (the pattern is anchored by [^] and
    [$]) by taking derivatives. *)

Module Regex.

Inductive regex : Type :=
| Empty                                   (* matches nothing *)
| Eps                                     (* matches the empty string *)
| Chr (c : N)                             (* one given code unit *)
| NotIn (excluded : N -> bool)            (* a negated class [^...] *)
| Alt (r1 r2 : regex)
| Seq (r1 r2 : regex)
| Star (r : regex).

(** [r+] *)
Definition Plus (r : regex) : regex := Seq r (Star r).

Fixpoint nullable (r : regex) : bool :=
  match r with
  | Empty => false
  | Eps => true
  | Chr _ => false
  | NotIn _ => false
  | Alt r1 r2 => nullable r1 || nullable r2
  | Seq r1 r2 => nullable r1 && nullable r2
  | Star _ => true
  end.

Fixpoint deriv (c : N) (r : regex) : regex :=
  match r with
  | Empty => Empty
  | Eps => Empty
  | Chr d => if c =? d then Eps else Empty
  | NotIn ex => if ex c then Empty else Eps
  | Alt r1 r2 => Alt (deriv c r1) (deriv c r2)
  | Seq r1 r2 =>
      if nullable r1
      then Alt (Seq (deriv c r1) r2) (deriv c r2)
      else Seq (deriv c r1) r2
  | Star r' => Seq (deriv c r') (Star r')
  end.

(** [/^r$/.test(s)] *)
Fixpoint test (r : regex) (s : jsstring) : bool :=
  match s with
  | [] => nullable r
  | c :: s' => test (deriv c r) s'
  end.

(** What it means for a string to match, stated without derivatives. *)
Inductive matches : regex -> jsstring -> Prop :=
| m_eps : matches Eps []
| m_chr c : matches (Chr c) [c]
| m_notin ex c : ex c = false -> matches (NotIn ex) [c]
| m_alt_l r1 r2 s : matches r1 s -> matches (Alt r1 r2) s
| m_alt_r r1 r2 s : matches r2 s -> matches (Alt r1 r2) s
| m_seq r1 r2 s1 s2 :
    matches r1 s1 -> matches r2 s2 -> matches (Seq r1 r2) (s1 ++ s2)
| m_star_nil r : matches (Star r) []
| m_star_cons r s1 s2 :
    matches r s1 -> matches (Star r) s2 -> matches (Star r) (s1 ++ s2).

End Regex.
Import Regex.

(** ** Values, errors and the parts of the language the controller relies on *)

(** A number is represented by the two things the controller can observe of
    it: how it compares with zero and how it prints. *)
Inductive sign : Type := Negative | Zero | Positive.

Record number : Type := mkNumber { num_sign : sign; num_text : jsstring }.

(** The values [response.json()] can produce, and [undefined]. An object
    keeps its members in the order of the document; a later member of the
    same name overrides an earlier one. *)
Inductive value : Type :=
| VUndefined
| VNull
| VBool (b : bool)
| VNum (n : number)
| VStr (s : jsstring)
| VArr (items : list value)
| VObj (props : list (jsstring * value)).

Record Error : Type := mkError { name : jsstring; message : jsstring }.

(** [new Error(msg)] *)
Definition new_Error (msg : jsstring) : Error := mkError (lit "Error") msg.

Definition TypeError (msg : jsstring) : Error := mkError (lit "TypeError") msg.

(** The outcome of evaluating code that may throw. *)
Inductive completion (A : Type) : Type :=
| Normal (a : A)
| Throw (e : Error).
Arguments Normal {A} a.
Arguments Throw {A} e.

Definition bind {A B : Type} (c : completion A) (k : A -> completion B)
  : completion B :=
  match c with
  | Normal a => k a
  | Throw e => Throw e
  end.

Notation "x <- c ;; k" := (bind c (fun x => k))
  (at level 61, c at next level, right associativity).

(** What the script leaves to the engine it runs on: the wording of the
    TypeErrors the engine raises, and the conversion of a string to a number
    as far as [>] against zero needs it, in which the language leaves an
    engine some room. *)
Class Engine : Type := {
  cannot_read_message : jsstring -> jsstring;
  not_a_function_message : jsstring;
  cannot_convert_message : jsstring;
  StringToNumber_positive : jsstring -> bool
}.

(** *** StringToNumber against zero

    [s > 0] converts the string by the grammar of StringNumericLiteral:
    white space around a decimal literal with an optional sign, or around a
    hexadecimal, octal or binary integer without one. Anything else is NaN,
    the empty literal is zero, and neither is above zero. The language lets
    an engine approximate a literal past its twentieth significant digit;
    V8 rounds every literal to the nearest double, ties to even. *)

Definition digit_value (base c : N) : option N :=
  let v := if (48 <=? c) && (c <=? 57) then Some (c - 48)           (* 0-9 *)
           else if (97 <=? c) && (c <=? 102) then Some (c - 87)     (* a-f *)
           else if (65 <=? c) && (c <=? 70) then Some (c - 55)      (* A-F *)
           else None in
  match v with
  | Some d => if d <? base then Some d else None
  | None => None
  end.

(** The digits that [s] starts with, read in [base] after the digits that
    gave [acc]: their value, how many there are, and what follows them. *)
Fixpoint leading_digits (base : N) (s : jsstring) (acc count : N)
  : N * N * jsstring :=
  match s with
  | c :: s' =>
      match digit_value base c with
      | Some d => leading_digits base s' (acc * base + d) (count + 1)
      | None => (acc, count, s)
      end
  | [] => (acc, count, [])
  end.

(** NonDecimalIntegerLiteral: [0x], [0o] or [0b], in either case, and at
    least one digit of that base up to the end of the string. *)
Definition NonDecimalIntegerLiteral (s : jsstring) : option N :=
  match s with
  | zero :: prefix :: ds =>
      let base := if (prefix =? 120) || (prefix =? 88) then 16      (* x X *)
                  else if (prefix =? 111) || (prefix =? 79) then 8  (* o O *)
                  else if (prefix =? 98) || (prefix =? 66) then 2   (* b B *)
                  else 0 in
      if (zero =? 48) && negb (base =? 0) then
        match leading_digits base ds 0 0 with
        | (n, count, []) => if count =? 0 then None else Some n
        | _ => None
        end
      else None
  | _ => None
  end.

(** ExponentPart, which may be missing, up to the end of the string:
    whether the exponent is negative, and its absolute value. *)
Definition ExponentPart (s : jsstring) : option (bool * N) :=
  match s with
  | [] => Some (false, 0)
  | indicator :: s1 =>
      if (indicator =? 101) || (indicator =? 69) then               (* e E *)
        let signed :=
          match s1 with
          | c :: s2 => if c =? 43 then (false, s2)                  (* + *)
                       else if c =? 45 then (true, s2)              (* - *)
                       else (false, s1)
          | [] => (false, s1)
          end in
        match leading_digits 10 (snd signed) 0 0 with
        | (n, count, []) =>
            if count =? 0 then None else Some (fst signed, n)
        | _ => None
        end
      else None
  end.

(** Whether the double nearest to [mantissa * 10^up / 10^down] is above
    zero. The least double above zero is [2^-1074]; what lies at or below
    half of it is rounded to zero. *)
Definition rounds_above_zero (mantissa up down : N) : bool :=
  10 ^ down <? mantissa * 10 ^ up * 2 ^ 1075.

(** StrUnsignedDecimalLiteral: [Infinity], or digits with at most one point
    among them and at least one digit before or after it, and an exponent
    part. *)
Definition StrUnsignedDecimalLiteral_above_zero (s : jsstring) : bool :=
  if eqb s (lit "Infinity") then true
  else
    let '(whole, whole_count, s1) := leading_digits 10 s 0 0 in
    let '(mantissa, fraction_count, s2) :=
      match s1 with
      | c :: s1' => if c =? 46 then leading_digits 10 s1' whole 0   (* . *)
                    else (whole, 0, s1)
      | [] => (whole, 0, s1)
      end in
    if whole_count + fraction_count =? 0 then false
    else
      match ExponentPart s2 with
      | Some (false, e) => rounds_above_zero mantissa e fraction_count
      | Some (true, e) => rounds_above_zero mantissa 0 (fraction_count + e)
      | None => false
      end.

(** StringToNumber of [s] is above zero. *)
Definition StringToNumber_above_zero (s : jsstring) : bool :=
  let literal := trim s in
  match NonDecimalIntegerLiteral literal with
  | Some n => 0 <? n
  | None =>
      match literal with
      | c :: unsigned =>
          if c =? 45 then false                                     (* - *)
          else if c =? 43                                           (* + *)
          then StrUnsignedDecimalLiteral_above_zero unsigned
          else StrUnsignedDecimalLiteral_above_zero literal
      | [] => false
      end
  end.

(** An engine to run the controller on: V8, with the wording of its
    TypeErrors. *)
Definition v8 : Engine := {|
  cannot_read_message := fun key =>
    lit "Cannot read properties of null (reading '" ++ key ++ lit "')";
  not_a_function_message := lit "data.sources.join is not a function";
  cannot_convert_message := lit "Cannot convert object to primitive value";
  StringToNumber_positive := StringToNumber_above_zero
|}.

Definition is_nil {A : Type} (l : list A) : bool :=
  match l with [] => true | _ :: _ => false end.

(** ToBoolean *)
Definition truthy (v : value) : bool :=
  match v with
  | VUndefined | VNull => false
  | VBool b => b
  | VNum n => match num_sign n with Zero => false | _ => true end
  | VStr s => negb (is_nil s)
  | VArr _ | VObj _ => true
  end.

(** [a || b] *)
Definition or_else (a b : value) : value := if truthy a then a else b.

(** The own member [key] of an object, [None] when it has none. *)
Fixpoint own_property (props : list (jsstring * value)) (key : jsstring)
  : option value :=
  match props with
  | [] => None
  | (k, v) :: rest =>
      match own_property rest key with
      | Some v' => Some v'
      | None => if eqb k key then Some v else None
      end
  end.

Fixpoint map_completion {A B : Type} (f : A -> completion B) (l : list A)
  : completion (list B) :=
  match l with
  | [] => Normal []
  | x :: l' => y <- f x ;; ys <- map_completion f l' ;; Normal (y :: ys)
  end.

Section Language.
Context {engine : Engine}.

(** ToString. An array prints its elements separated by commas, [null] and
    [undefined] elements as nothing; an object prints through
    [Object.prototype.toString] unless a member named [toString] shadows it,
    and such a member of a parsed document is never callable. *)
Fixpoint ToString (v : value) : completion jsstring :=
  match v with
  | VUndefined => Normal (lit "undefined")
  | VNull => Normal (lit "null")
  | VBool true => Normal (lit "true")
  | VBool false => Normal (lit "false")
  | VNum n => Normal (num_text n)
  | VStr s => Normal s
  | VArr items =>
      parts <- (fix each (l : list value) : completion (list jsstring) :=
                  match l with
                  | [] => Normal []
                  | x :: l' =>
                      p <- match x with
                           | VUndefined | VNull => Normal []
                           | _ => ToString x
                           end ;;
                      ps <- each l' ;;
                      Normal (p :: ps)
                  end) items ;;
      Normal (join (lit ",") parts)
  | VObj props =>
      match own_property props (lit "toString") with
      | Some _ => Throw (TypeError cannot_convert_message)
      | None => Normal (lit "[object Object]")
      end
  end.

(** [items.join(sep)] *)
Definition Array_join (sep : jsstring) (items : list value)
  : completion jsstring :=
  parts <- map_completion
             (fun x => match x with
                       | VUndefined | VNull => Normal []
                       | _ => ToString x
                       end) items ;;
  Normal (join sep parts).

(** [v[key]] for a [key] that no built-in prototype defines: [response],
    [message], [answer], [sources]. Reading a member of [null] throws. *)
Definition get (v : value) (key : jsstring) : completion value :=
  match v with
  | VUndefined | VNull => Throw (TypeError (cannot_read_message key))
  | VObj props =>
      match own_property props key with
      | Some x => Normal x
      | None => Normal VUndefined
      end
  | _ => Normal VUndefined
  end.

(** [v > 0] *)
Definition greater_than_zero (v : value) : completion bool :=
  match v with
  | VUndefined | VNull => Normal false
  | VBool b => Normal b
  | VNum n => Normal match num_sign n with Positive => true | _ => false end
  | VStr s => Normal (StringToNumber_positive s)
  | VArr _ | VObj _ => s <- ToString v ;; Normal (StringToNumber_positive s)
  end.

(** [v.length > 0] for a truthy [v] *)
Definition length_positive (v : value) : completion bool :=
  match v with
  | VArr items => Normal (negb (is_nil items))
  | VStr s => Normal (negb (is_nil s))
  | VObj props =>
      match own_property props (lit "length") with
      | Some len => greater_than_zero len
      | None => Normal false
      end
  | _ => Normal false
  end.

(** [v.join(sep)]: only an array has a [join] that can be called. *)
Definition call_join (v : value) (sep : jsstring) : completion jsstring :=
  match v with
  | VArr items => Array_join sep items
  | _ => Throw (TypeError not_a_function_message)
  end.

(** [a + s] for a string [s] *)
Definition plus_string (a : value) (s : jsstring) : completion value :=
  p <- ToString a ;; Normal (VStr (p ++ s)).

End Language.

(** ** The service tables *)

Record ServiceConfig : Type := mkServiceConfig {
  baseUrl : jsstring;
  endpoint : jsstring;
  method : jsstring
}.

Record Service : Type := mkService {
  service_name : jsstring;
  description : jsstring;
  icon : jsstring;
  welcomeMessage : jsstring
}.

Definition timesheet : jsstring := lit "timesheet".
Definition hr_policy : jsstring := lit "hr-policy".

(** What [table[key]] finds: a member of the table itself, a member that
    every object inherits from [Object.prototype] (truthy, and without any
    of the fields of a table entry), or nothing ([undefined]). *)
Inductive lookup (A : Type) : Type :=
| Own (a : A)
| Inherited
| Absent.
Arguments Own {A} a.
Arguments Inherited {A}.
Arguments Absent {A}.

Definition Object_prototype_keys : list jsstring :=
  map lit ["constructor"; "hasOwnProperty"; "isPrototypeOf";
           "propertyIsEnumerable"; "toLocaleString"; "toString"; "valueOf";
           "__proto__"; "__defineGetter__"; "__defineSetter__";
           "__lookupGetter__"; "__lookupSetter__"]%string.

Definition table_lookup {A : Type} (table : list (jsstring * A))
  (key : jsstring) : lookup A :=
  match find (fun kv => eqb (fst kv) key) table with
  | Some kv => Own (snd kv)
  | None => if existsb (eqb key) Object_prototype_keys
            then Inherited else Absent
  end.

Definition timesheet_config : ServiceConfig :=
  mkServiceConfig (lit "http://localhost:8000") (lit "/chat") (lit "POST").

Definition hr_policy_config : ServiceConfig :=
  mkServiceConfig (lit "http://localhost:8001") (lit "/query") (lit "POST").

Definition API_CONFIG : list (jsstring * ServiceConfig) :=
  [ (timesheet, timesheet_config); (hr_policy, hr_policy_config) ].

Definition timesheet_service : Service :=
  mkService (lit "Timesheet Management")
    (lit "your Oracle and Mars timesheets")
    [9200]
    (lit "Hello! I'm your Timesheet Management assistant. I can help you fill timesheets, view entries, and manage your Oracle and Mars timesheet data. How can I assist you today?").

Definition hr_policy_service : Service :=
  mkService (lit "HR Policy Assistant")
    (lit "HR policies and company documents")
    [55357; 56523]
    (lit "Hello! I'm your HR Policy Assistant. I can help you understand company policies, HR procedures, and answer questions about employee documentation. How can I help you today?").

Definition SERVICES : list (jsstring * Service) :=
  [ (timesheet, timesheet_service); (hr_policy, hr_policy_service) ].

(** ** Application state and cached DOM elements *)

Inductive Role : Type := user | assistant.

(** An entry of [conversationHistory]. The content of an assistant entry is
    whatever [callAPI] returned, which need not be a string. *)
Record Turn : Type := mkTurn { role : Role; content : value }.

Record AppState : Type := mkAppState {
  selectedService : option jsstring;         (* [None] is [null] *)
  userEmail : jsstring;
  conversationHistory : list Turn;
  isLoading : bool;
  initialized : bool
}.

(** The elements of the document that the controller reads, or whose
    content carries what it reports. A field is [None] when the document has
    no such element. [emailInput] and [messageInput] hold the [value] of the
    input, [messagesContainer] the rendered messages in order, each with the
    role of its class and its text, and [errorMessage] its [textContent].
    Styling, focus, scrolling, which view is shown, the typing indicator,
    the send button and the visibility of the error toast are written but
    never read back, and are left out. *)
Record Elements : Type := mkElements {
  emailInput : option jsstring;
  messageInput : option jsstring;
  messagesContainer : option (list (Role * jsstring));
  errorMessage : option jsstring
}.

(** The payload [callAPI] builds for the service. *)
Inductive Payload : Type :=
| TimesheetPayload (email user_prompt : jsstring)
| QueryPayload (question : jsstring).

(** A [sendMessage] call suspended at [fetch]: the locals it resumes with,
    and what was handed to the transport. *)
Record Pending : Type := mkPending {
  pending_message : jsstring;
  pending_config : ServiceConfig;
  pending_payload : Payload
}.

Record World : Type := mkWorld {
  appState : AppState;
  elements : Elements;
  inflight : list Pending
}.

(** How the transport settles a request: [fetch] rejects, or resolves with
    a response of some status, whose body [response.json()] either parses
    or rejects. *)
Inductive FetchOutcome : Type :=
| FetchRejected (e : Error)
| FetchResponse (status : N) (body : completion value).

(** [response.ok] *)
Definition response_ok (status : N) : bool :=
  (200 <=? status) && (status <=? 299).

(** ** The controller *)

Definition set_emailInput (v : option jsstring) (els : Elements) : Elements :=
  mkElements v (messageInput els) (messagesContainer els) (errorMessage els).

Definition set_messageInput (v : option jsstring) (els : Elements)
  : Elements :=
  mkElements (emailInput els) v (messagesContainer els) (errorMessage els).

Definition set_messagesContainer (v : option (list (Role * jsstring)))
  (els : Elements) : Elements :=
  mkElements (emailInput els) (messageInput els) v (errorMessage els).

Definition set_errorMessage (v : option jsstring) (els : Elements)
  : Elements :=
  mkElements (emailInput els) (messageInput els) (messagesContainer els) v.

(** The excluded set of the class [[^\s@]]. *)
Definition space_or_at (c : N) : bool := is_space c || (c =? 64).

(** [/^[^\s@]+@[^\s@]+\.[^\s@]+$/] *)
Definition emailRegex : regex :=
  Seq (Plus (NotIn space_or_at))
    (Seq (Chr 64)
       (Seq (Plus (NotIn space_or_at))
          (Seq (Chr 46) (Plus (NotIn space_or_at))))).

Definition validateEmail (els : Elements) : bool :=
  let email := match emailInput els with
               | Some v => trim v
               | None => []
               end in
  Regex.test emailRegex email.

Definition showError (msg : jsstring) (els : Elements) : Elements :=
  match errorMessage els with
  | Some _ => set_errorMessage (Some msg) els
  | None => els
  end.

Definition showTyping (show : bool) (app : AppState) : AppState :=
  mkAppState (selectedService app) (userEmail app) (conversationHistory app)
    show (initialized app).

(** [innerHTML = ''] on the messages container, [value = ''] on an input *)
Definition cleared {A : Type} (field : option (list A)) : option (list A) :=
  match field with
  | Some _ => Some []
  | None => None
  end.

(** Whether a string that may be [undefined] is truthy, and the string it
    is when it is. *)
Definition nonempty (v : option jsstring) : bool :=
  match v with
  | Some (_ :: _) => true
  | _ => false
  end.

Definition string_of (v : option jsstring) : jsstring :=
  match v with
  | Some s => s
  | None => []
  end.

(** [appState.selectedService === id] *)
Definition selected (app : AppState) (id : jsstring) : bool :=
  match selectedService app with
  | Some s => eqb s id
  | None => false
  end.

(** The property key that [table[appState.selectedService]] looks up. *)
Definition selected_key (app : AppState) : jsstring :=
  match selectedService app with
  | Some s => s
  | None => lit "null"
  end.

Definition fallback : jsstring := lit "Response received successfully.".

Definition apology : jsstring :=
  lit "I apologize, but I encountered an error processing your request. Please try again.".

(** The catch block of [sendMessage] picks the text it reports from the
    message of what was thrown. *)
Definition errorMsg (error : Error) : jsstring :=
  if includes (message error) (lit "CORS")
     || includes (message error) (lit "OPTIONS")
  then lit "Connection issue - please ensure the API server is running and CORS is configured."
  else if includes (message error) (lit "405")
  then lit "Method not allowed - please check the API endpoint configuration."
  else if includes (message error) (lit "Failed to fetch")
  then lit "Cannot connect to API server. Please ensure it is running."
  else lit "Sorry, I encountered an error. Please try again.".

(** The catch block of [callAPI]. *)
Definition callAPI_catch (fetchError : Error) : Error :=
  if eqb (name fetchError) (lit "TypeError")
     && eqb (message fetchError) (lit "Failed to fetch")
  then new_Error
         (lit "Cannot connect to API server. Please ensure it is running and accessible.")
  else fetchError.

(** [callAPI] up to the call of [fetch]. Both tables have the same own keys,
    so a key that [API_CONFIG] only inherits is neither of the two the
    payload is built for. *)
Definition callAPI_start (app : AppState) (msg : jsstring)
  : completion Pending :=
  match table_lookup API_CONFIG (selected_key app) with
  | Absent => Throw (new_Error (lit "Invalid service configuration"))
  | Inherited => Throw (new_Error (lit "Unknown service type"))
  | Own serviceConfig =>
      payload <- (if selected app timesheet
                  then Normal (TimesheetPayload (userEmail app) msg)
                  else if selected app hr_policy
                  then Normal (QueryPayload msg)
                  else Throw (new_Error (lit "Unknown service type"))) ;;
      Normal (mkPending msg serviceConfig payload)
  end.

Section Controller.
Context {engine : Engine}.

Definition addMessage (r : Role) (c : value) (els : Elements)
  : completion Elements :=
  match messagesContainer els with
  | None => Normal els
  | Some shown =>
      if negb (truthy c) then Normal els
      else text <- ToString c ;;
           Normal (set_messagesContainer (Some (shown ++ [(r, text)])) els)
  end.

(** Where what is thrown is not caught, the handler ends and the elements
    stay as they were. *)
Definition or_unchanged (c : completion Elements) (els : Elements)
  : Elements :=
  match c with
  | Normal els' => els'
  | Throw _ => els
  end.

Definition selectService (serviceType : jsstring) (w : World) : World :=
  let els := elements w in
  let email := option_map trim (emailInput els) in
  if negb (validateEmail els) || negb (nonempty email) then
    mkWorld (appState w)
      (showError (lit "Please enter a valid email address first.") els)
      (inflight w)
  else
    let app := mkAppState (Some serviceType) (string_of email) []
                 (isLoading (appState w)) true in
    match table_lookup SERVICES serviceType with
    | Absent =>
        mkWorld app (showError (lit "Invalid service selected.") els)
          (inflight w)
    | Own service =>
        let els1 := set_messagesContainer (cleared (messagesContainer els))
                      els in
        mkWorld app
          (or_unchanged
             (addMessage assistant (VStr (welcomeMessage service)) els1) els1)
          (inflight w)
    | Inherited =>
        let els1 := set_messagesContainer (cleared (messagesContainer els))
                      els in
        mkWorld app
          (or_unchanged (addMessage assistant VUndefined els1) els1)
          (inflight w)
    end.

(** The body of a response that is [ok], read for the service that is
    selected when it arrives. *)
Definition read_response (app : AppState) (data : value) : completion value :=
  if selected app timesheet then
    r <- get data (lit "response") ;;
    m <- get data (lit "message") ;;
    Normal (or_else (or_else r m) (VStr fallback))
  else if selected app hr_policy then
    a <- get data (lit "answer") ;;
    r <- get data (lit "response") ;;
    m <- get data (lit "message") ;;
    let answer := or_else (or_else a r) m in
    sources <- get data (lit "sources") ;;
    answer' <- (if truthy sources then
                  positive <- length_positive sources ;;
                  if (positive : bool) then
                    joined <- call_join sources (lit ", ") ;;
                    plus_string answer ([10; 10] ++ lit "Sources: " ++ joined)
                  else Normal answer
                else Normal answer) ;;
    Normal (or_else answer' (VStr fallback))
  else Normal (VStr fallback).

(** The try block of [callAPI] from the point where [fetch] settles. *)
Definition callAPI_try (p : Pending) (o : FetchOutcome) (app : AppState)
  : completion value :=
  match o with
  | FetchRejected e => Throw e
  | FetchResponse status body =>
      if negb (response_ok status) then
        if status =? 405 then
          Throw (new_Error
                   (lit "Method not allowed (405). Check if "
                    ++ endpoint (pending_config p) ++ lit " accepts "
                    ++ method (pending_config p) ++ lit " requests."))
        else if status =? 404 then
          Throw (new_Error
                   (lit "Endpoint not found (404). Check if "
                    ++ endpoint (pending_config p) ++ lit " exists."))
        else if 500 <=? status then
          Throw (new_Error
                   (lit "Server error (" ++ of_N status
                    ++ lit "). The API server may be down."))
        else
          Throw (new_Error (lit "HTTP error! status: " ++ of_N status))
      else
        data <- body ;;
        read_response app data
  end.

Definition callAPI_resume (p : Pending) (o : FetchOutcome) (app : AppState)
  : completion value :=
  match callAPI_try p o app with
  | Normal response => Normal response
  | Throw fetchError => Throw (callAPI_catch fetchError)
  end.

(** [conversationHistory.push(user entry, assistant entry)] *)
Definition push_exchange (msg : jsstring) (response : value) (app : AppState)
  : AppState :=
  mkAppState (selectedService app) (userEmail app)
    (conversationHistory app
       ++ [mkTurn user (VStr msg); mkTurn assistant response])
    (isLoading app) (initialized app).

Definition sendMessage_catch (error : Error) (els : Elements) : Elements :=
  let els1 := showError (errorMsg error) els in
  or_unchanged (addMessage assistant (VStr apology) els1) els1.

(** [sendMessage] from the point where [callAPI] has settled: the rest of
    the try block, the catch block, and the finally block. *)
Definition sendMessage_resume (msg : jsstring) (result : completion value)
  (w : World) : World :=
  let app := appState w in
  let els := elements w in
  match result with
  | Normal response =>
      match addMessage assistant response els with
      | Normal els1 =>
          mkWorld (showTyping false (push_exchange msg response app)) els1
            (inflight w)
      | Throw error =>
          mkWorld (showTyping false app) (sendMessage_catch error els)
            (inflight w)
      end
  | Throw error =>
      mkWorld (showTyping false app) (sendMessage_catch error els)
        (inflight w)
  end.

(** [sendMessage] up to the point where it waits for [fetch]. When
    [callAPI] throws before it reaches [fetch], the call is resumed before
    any other handler can run, and that is part of this step. *)
Definition sendMessage (w : World) : World :=
  let app := appState w in
  let els := elements w in
  let message := option_map trim (messageInput els) in
  if negb (nonempty message) || isLoading app || negb (initialized app)
  then w
  else
    let msg := string_of message in
    let els1 := set_messageInput (Some []) els in
    match addMessage user (VStr msg) els1 with
    | Throw _ => mkWorld app els1 (inflight w)
    | Normal els2 =>
        let app1 := showTyping true app in
        match callAPI_start app1 msg with
        | Normal p => mkWorld app1 els2 (inflight w ++ [p])
        | Throw error =>
            sendMessage_resume msg (Throw error)
              (mkWorld app1 els2 (inflight w))
        end
    end.

Fixpoint remove_nth {A : Type} (i : nat) (l : list A) : list A :=
  match i, l with
  | _, [] => []
  | O, _ :: l' => l'
  | S i', x :: l' => x :: remove_nth i' l'
  end.

(** The transport settles the [i]-th request in flight and the call that
    issued it runs to its end. *)
Definition settle (i : nat) (o : FetchOutcome) (w : World) : World :=
  match nth_error (inflight w) i with
  | None => w
  | Some p =>
      sendMessage_resume (pending_message p)
        (callAPI_resume p o (appState w))
        (mkWorld (appState w) (elements w) (remove_nth i (inflight w)))
  end.

(** What a call [sendMessage()] gives its caller. The function is [async]
    and takes no argument: the call returns a promise. No [return] in its
    body has an operand, so the promise is resolved with [undefined], by
    the [return;] of the guard or at the end of the body once the finally
    block has run; what is thrown before the try block rejects it.

    [sendMessage_promise] is the promise when the call hands control back,
    [None] while it is pending, that is, while the call waits for [fetch];
    [settle_promise] is what the promise of the call that issued the [i]-th
    request becomes when the transport settles the request. *)
Definition sendMessage_promise (w : World) : option (completion value) :=
  let app := appState w in
  let els := elements w in
  let message := option_map trim (messageInput els) in
  if negb (nonempty message) || isLoading app || negb (initialized app)
  then Some (Normal VUndefined)
  else
    let msg := string_of message in
    let els1 := set_messageInput (Some []) els in
    match addMessage user (VStr msg) els1 with
    | Throw error => Some (Throw error)
    | Normal els2 =>
        match callAPI_start (showTyping true app) msg with
        | Normal p => None
        | Throw error => Some (Normal VUndefined)
        end
    end.

Definition settle_promise (i : nat) (o : FetchOutcome) (w : World)
  : option (completion value) :=
  match nth_error (inflight w) i with
  | None => None
  | Some p => Some (Normal VUndefined)
  end.

End Controller.

(** The object that [sendMessage] pushes on [conversationHistory] for an
    entry: [{ role: ..., content: ... }]. *)
Definition Role_name (r : Role) : jsstring :=
  match r with
  | user => lit "user"
  | assistant => lit "assistant"
  end.

Definition Turn_object (t : Turn) : value :=
  VObj [(lit "role", VStr (Role_name (role t))); (lit "content", content t)].

Definition resetToWelcome (w : World) : World :=
  let els := elements w in
  mkWorld (mkAppState None [] [] false false)
    (mkElements (cleared (emailInput els)) (cleared (messageInput els))
       (cleared (messagesContainer els)) (errorMessage els))
    (inflight w).

(** ** Runs of the page *)

(** What can happen to the page: the user edits one of the two inputs, one
    of the three operations is invoked, or the transport settles a
    request. *)
Inductive Event : Type :=
| EditEmail (v : jsstring)
| EditMessage (v : jsstring)
| SelectService (serviceType : jsstring)
| SendMessage
| ResetToWelcome
| Settle (i : nat) (o : FetchOutcome).

Definition edit {A : Type} (v : A) (field : option A) : option A :=
  match field with
  | Some _ => Some v
  | None => None
  end.

Section Runs.
Context {engine : Engine}.

Definition step (w : World) (e : Event) : World :=
  match e with
  | EditEmail v =>
      mkWorld (appState w)
        (set_emailInput (edit v (emailInput (elements w))) (elements w))
        (inflight w)
  | EditMessage v =>
      mkWorld (appState w)
        (set_messageInput (edit v (messageInput (elements w))) (elements w))
        (inflight w)
  | SelectService serviceType => selectService serviceType w
  | SendMessage => sendMessage w
  | ResetToWelcome => resetToWelcome w
  | Settle i o => settle i o w
  end.

Definition run (w : World) (events : list Event) : World :=
  fold_left step events w.

(** The page once the script is loaded on a document: the initial
    [appState], the elements that [initializeElements] found, and the call
    of [resetToWelcome] that ends the [DOMContentLoaded] handler. *)
Definition loaded (document : Elements) : World :=
  resetToWelcome (mkWorld (mkAppState None [] [] false false) document []).

Inductive reachable : World -> Prop :=
| reachable_loaded document : reachable (loaded document)
| reachable_step w e : reachable w -> reachable (step w e).

End Runs.

(** ** Properties of states and runs *)

Definition is_user (t : Turn) : bool :=
  match role t with user => true | assistant => false end.

Definition is_assistant (t : Turn) : bool :=
  match role t with assistant => true | user => false end.

(** The history is a sequence of exchanges: a user entry followed by an
    assistant entry. *)
Fixpoint paired (h : list Turn) : bool :=
  match h with
  | [] => true
  | u :: a :: rest => is_user u && is_assistant a && paired rest
  | [_] => false
  end.

(** The shape that the specification asks of an email: a local part, "@",
    and a domain with a dot in it, none of them empty and none with
    whitespace or a further "@". *)
Definition email_shape (s : jsstring) : Prop :=
  exists local domain tld,
    s = local ++ [64] ++ domain ++ [46] ++ tld /\
    local <> [] /\ domain <> [] /\ tld <> [] /\
    Forall (fun c => space_or_at c = false) (local ++ domain ++ tld).

Section SteadyRuns.
Context {engine : Engine}.

(** The states of the runs in which [resetToWelcome] is only invoked while
    no request is in flight. *)
Inductive steady : World -> Prop :=
| steady_loaded document : steady (loaded document)
| steady_reset w : steady w -> inflight w = [] -> steady (resetToWelcome w)
| steady_step w e : steady w -> e <> ResetToWelcome -> steady (step w e).

End SteadyRuns.

(** A document with every element the controller looks for. *)
Definition full_document : Elements :=
  mkElements (Some []) (Some []) (Some []) (Some []).

(** The elements with one more message shown, where the document has a
    messages container. *)
Definition with_message (r : Role) (text : jsstring) (els : Elements)
  : Elements :=
  set_messagesContainer
    (option_map (fun shown => shown ++ [(r, text)]) (messagesContainer els))
    els.

(** The page after the user has typed [email] into the email input. *)
Definition page_with_email (email : jsstring) : World :=
  step (engine := v8) (loaded full_document) (EditEmail email).

(** A timesheet session with one exchange in its history. *)
Definition timesheet_session : World :=
  run (engine := v8) (loaded full_document)
    [ EditEmail (lit "a@b.co"); SelectService timesheet;
      EditMessage (lit "hi"); SendMessage;
      Settle 0 (FetchResponse 200
                  (Normal (VObj [(lit "response", VStr (lit "ok"))]))) ].

(** The timesheet page with "hi" typed into the message input, and the
    same page once the message is sent and the request is in flight. *)
Definition timesheet_ready : World :=
  run (engine := v8) (loaded full_document)
    [ EditEmail (lit "a@b.co"); SelectService timesheet;
      EditMessage (lit "hi") ].

Definition timesheet_waiting : World :=
  sendMessage (engine := v8) timesheet_ready.

Definition hr_policy_waiting : World :=
  run (engine := v8) (loaded full_document)
    [ EditEmail (lit "a@b.co"); SelectService hr_policy;
      EditMessage (lit "leave?"); SendMessage ].

(** A run in which the page is reset while a request is in flight. *)
Definition overlapping_run : list Event :=
  [ EditEmail (lit "a@b.co"); SelectService timesheet;
    EditMessage (lit "a"); SendMessage;
    ResetToWelcome;
    EditEmail (lit "a@b.co"); SelectService timesheet;
    EditMessage (lit "b"); SendMessage;
    Settle 0 (FetchResponse 200
                (Normal (VObj [(lit "response", VStr (lit "ok"))])));
    EditMessage (lit "c"); SendMessage ].

(** ** More properties of states and runs *)

(** What [callAPI] hands to [fetch] for a request: the configuration of one
    of the two services with the payload of that service, built from a
    message that is not empty. *)
Definition wire_contract (p : Pending) : Prop :=
  pending_message p <> [] /\
  ((pending_config p = timesheet_config /\
    exists email,
      pending_payload p = TimesheetPayload email (pending_message p) /\
      email_shape email) \/
   (pending_config p = hr_policy_config /\
    pending_payload p = QueryPayload (pending_message p))).


(** A page on which the service is selected again, under another email,
    while the request for "hi" is in flight. *)
Definition reselected_waiting : World :=
  run (engine := v8) (loaded full_document)
    [ EditEmail (lit "a@b.co"); SelectService timesheet;
      EditMessage (lit "hi"); SendMessage;
      EditEmail (lit "c@d.co"); SelectService timesheet ].

(** The session part of the state. *)
Definition session_consistent (app : AppState) : Prop :=
  if initialized app
  then (exists id, selectedService app = Some id) /\ email_shape (userEmail app)
  else selectedService app = None /\ userEmail app = [].

Definition same_session (a b : AppState) : Prop :=
  selectedService a = selectedService b /\
  userEmail a = userEmail b /\
  initialized a = initialized b.

(** The texts the controller passes to [showError]. *)
Definition error_texts : list jsstring :=
  [ lit "Please enter a valid email address first.";
    lit "Invalid service selected.";
    lit "Connection issue - please ensure the API server is running and CORS is configured.";
    lit "Method not allowed - please check the API endpoint configuration.";
    lit "Cannot connect to API server. Please ensure it is running.";
    lit "Sorry, I encountered an error. Please try again." ].

Definition fixed_or_kept (before after : option jsstring) : Prop :=
  after = before \/ exists text, In text error_texts /\ after = Some text.

(** ** The presentation state

    The elements that the handlers write without reading them back: the
    email error line, the service cards, the send button, the typing
    indicator, the error toast and the two views, with the timer that hides
    the toast. The handlers are given again with these writes in the order
    of the source, under the names [page_...] where the controller's
    transition already has the name. *)

(** [emailError] holds its text and whether it carries the class [hidden];
    [serviceCards] whether each card has the attribute [disabled];
    [sendButton] its [disabled] property; [typingIndicator], [errorToast],
    [welcomeView] and [chatView] whether they carry the class [hidden];
    [errorTimeout] whether the timer set by the last [showError] is still to
    fire. *)
Record View : Type := mkView {
  emailError : option (jsstring * bool);
  serviceCards : list bool;
  sendButton : option bool;
  typingIndicator : option bool;
  errorToast : option bool;
  welcomeView : option bool;
  chatView : option bool;
  errorTimeout : bool
}.

Record Page : Type := mkPage { world : World; view : View }.

Definition set_emailError (x : option (jsstring * bool)) (v : View) : View :=
  mkView x (serviceCards v) (sendButton v) (typingIndicator v) (errorToast v)
    (welcomeView v) (chatView v) (errorTimeout v).

Definition set_serviceCards (x : list bool) (v : View) : View :=
  mkView (emailError v) x (sendButton v) (typingIndicator v) (errorToast v)
    (welcomeView v) (chatView v) (errorTimeout v).

Definition set_sendButton (x : option bool) (v : View) : View :=
  mkView (emailError v) (serviceCards v) x (typingIndicator v) (errorToast v)
    (welcomeView v) (chatView v) (errorTimeout v).

Definition set_typingIndicator (x : option bool) (v : View) : View :=
  mkView (emailError v) (serviceCards v) (sendButton v) x (errorToast v)
    (welcomeView v) (chatView v) (errorTimeout v).

Definition set_errorToast (x : option bool) (v : View) : View :=
  mkView (emailError v) (serviceCards v) (sendButton v) (typingIndicator v) x
    (welcomeView v) (chatView v) (errorTimeout v).

Definition set_views (welcome chat : option bool) (v : View) : View :=
  mkView (emailError v) (serviceCards v) (sendButton v) (typingIndicator v)
    (errorToast v) welcome chat (errorTimeout v).

Definition set_errorTimeout (x : bool) (v : View) : View :=
  mkView (emailError v) (serviceCards v) (sendButton v) (typingIndicator v)
    (errorToast v) (welcomeView v) (chatView v) x.

(** [element?.classList.add('hidden')], [remove] and [toggle]: the class is
    set to [hidden] where the element exists. *)
Definition class_hidden (hidden : bool) (element : option bool) : option bool :=
  option_map (fun _ => hidden) element.

Definition hideError (v : View) : View :=
  set_errorToast (class_hidden true (errorToast v)) v.

(** [showError] as it is declared. *)
Definition originalShowError (msg : jsstring) (p : Page) : Page :=
  mkPage
    (mkWorld (appState (world p)) (showError msg (elements (world p)))
       (inflight (world p)))
    (set_errorToast (class_hidden false (errorToast (view p))) (view p)).

(** [showError] as [initializeEventListeners] rebinds it: the toast is
    shown and the timer that hides it is started afresh. *)
Definition page_showError (msg : jsstring) (p : Page) : Page :=
  let p1 := originalShowError msg p in
  mkPage (world p1) (set_errorTimeout true (view p1)).

Definition validateEmailInput (p : Page) : Page :=
  let els := elements (world p) in
  let isValid := validateEmail els in
  let email := string_of (option_map trim (emailInput els)) in
  let v := view p in
  let v1 :=
    match emailError v with
    | Some (text, hidden) =>
        if negb isValid && negb (is_nil email)
        then set_emailError
               (Some (lit "Please enter a valid email address", false)) v
        else set_emailError (Some (text, true)) v
    | None => v
    end in
  mkPage (world p)
    (set_serviceCards
       (map (fun _ => negb (isValid && negb (is_nil email))) (serviceCards v1))
       v1).

Definition updateSendButtonState (p : Page) : Page :=
  let hasText :=
    nonempty (option_map trim (messageInput (elements (world p)))) in
  mkPage (world p)
    (set_sendButton
       (option_map (fun _ => negb hasText || isLoading (appState (world p)))
          (sendButton (view p)))
       (view p)).

Definition page_showTyping (show : bool) (p : Page) : Page :=
  updateSendButtonState
    (mkPage
       (mkWorld (showTyping show (appState (world p)))
          (elements (world p)) (inflight (world p)))
       (set_typingIndicator
          (class_hidden (negb show) (typingIndicator (view p))) (view p))).

Section Handlers.
Context {engine : Engine}.

(** [addMessage] touches the messages container only. *)
Definition page_addMessage (r : Role) (c : value) (p : Page) : completion Page :=
  els <- addMessage r c (elements (world p)) ;;
  Normal (mkPage (mkWorld (appState (world p)) els (inflight (world p)))
            (view p)).

Definition page_or_unchanged (c : completion Page) (p : Page) : Page :=
  match c with
  | Normal p' => p'
  | Throw _ => p
  end.

Definition page_selectService (serviceType : jsstring) (p : Page) : Page :=
  let els := elements (world p) in
  let email := option_map trim (emailInput els) in
  if negb (validateEmail els) || negb (nonempty email) then
    page_showError (lit "Please enter a valid email address first.") p
  else
    let app := mkAppState (Some serviceType) (string_of email) []
                 (isLoading (appState (world p))) true in
    let p1 := mkPage (mkWorld app els (inflight (world p))) (view p) in
    match table_lookup SERVICES serviceType with
    | Absent => page_showError (lit "Invalid service selected.") p1
    | found =>
        let v2 := set_views (class_hidden true (welcomeView (view p1)))
                    (class_hidden false (chatView (view p1))) (view p1) in
        let els2 := set_messagesContainer (cleared (messagesContainer els))
                      els in
        let p2 := mkPage (mkWorld app els2 (inflight (world p))) v2 in
        let welcome := match found with
                       | Own service => VStr (welcomeMessage service)
                       | _ => VUndefined
                       end in
        page_or_unchanged (page_addMessage assistant welcome p2) p2
    end.

Definition page_push_exchange (msg : jsstring) (response : value) (p : Page)
  : Page :=
  mkPage
    (mkWorld (push_exchange msg response (appState (world p)))
       (elements (world p)) (inflight (world p)))
    (view p).

Definition page_sendMessage_catch (error : Error) (p : Page) : Page :=
  let p1 := page_showError (errorMsg error) p in
  page_or_unchanged (page_addMessage assistant (VStr apology) p1) p1.

Definition page_sendMessage_resume (msg : jsstring) (result : completion value)
  (p : Page) : Page :=
  page_showTyping false
    match result with
    | Normal response =>
        match page_addMessage assistant response p with
        | Normal p1 => page_push_exchange msg response p1
        | Throw error => page_sendMessage_catch error p
        end
    | Throw error => page_sendMessage_catch error p
    end.

Definition with_inflight (fl : list Pending) (p : Page) : Page :=
  mkPage (mkWorld (appState (world p)) (elements (world p)) fl) (view p).

Definition page_sendMessage (p : Page) : Page :=
  let app := appState (world p) in
  let els := elements (world p) in
  let message := option_map trim (messageInput els) in
  if negb (nonempty message) || isLoading app || negb (initialized app)
  then p
  else
    let msg := string_of message in
    let p1 := updateSendButtonState
                (mkPage (mkWorld app (set_messageInput (Some []) els)
                           (inflight (world p)))
                   (view p)) in
    match page_addMessage user (VStr msg) p1 with
    | Throw _ => p1
    | Normal p2 =>
        let p3 := page_showTyping true p2 in
        match callAPI_start (appState (world p3)) msg with
        | Normal q => with_inflight (inflight (world p3) ++ [q]) p3
        | Throw error => page_sendMessage_resume msg (Throw error) p3
        end
    end.

Definition page_settle (i : nat) (o : FetchOutcome) (p : Page) : Page :=
  match nth_error (inflight (world p)) i with
  | None => p
  | Some q =>
      page_sendMessage_resume (pending_message q)
        (callAPI_resume q o (appState (world p)))
        (with_inflight (remove_nth i (inflight (world p))) p)
  end.

End Handlers.

Definition page_resetToWelcome (p : Page) : Page :=
  let els := elements (world p) in
  let v := view p in
  let els1 :=
    mkElements (cleared (emailInput els)) (cleared (messageInput els))
      (cleared (messagesContainer els)) (errorMessage els) in
  let v1 :=
    set_emailError
      (option_map (fun e => (fst e, true)) (emailError v)) v in
  let p1 := mkPage (mkWorld (mkAppState None [] [] false false) els1
                      (inflight (world p))) v1 in
  let p2 := page_showTyping false p1 in
  let p3 := mkPage (world p2) (hideError (view p2)) in
  let p4 := validateEmailInput p3 in
  mkPage (world p4)
    (set_views (class_hidden false (welcomeView (view p4)))
       (class_hidden true (chatView (view p4))) (view p4)).

(** What the user, the timer, the network status and the transport can do
    to the page. [Submit] is Enter in the message input or a click on the
    send button. A click on a card is taken with the [data-service] of the
    card, whether or not the card carries [disabled]. *)
Inductive Action : Type :=
| InputEmail (v : jsstring)
| InputMessage (v : jsstring)
| ClickCard (service : jsstring)
| Submit
| ClickReset
| KeyEscape
| CloseError
| ErrorTimerFires
| Online
| Offline
| Settled (i : nat) (o : FetchOutcome).

Section Actions.
Context {engine : Engine}.

Definition act (p : Page) (a : Action) : Page :=
  let w := world p in
  match a with
  | InputEmail v =>
      match emailInput (elements w) with
      | Some _ =>
          validateEmailInput
            (mkPage (mkWorld (appState w)
                       (set_emailInput (Some v) (elements w)) (inflight w))
               (view p))
      | None => p
      end
  | InputMessage v =>
      match messageInput (elements w) with
      | Some _ =>
          updateSendButtonState
            (mkPage (mkWorld (appState w)
                       (set_messageInput (Some v) (elements w)) (inflight w))
               (view p))
      | None => p
      end
  | ClickCard service =>
      if is_nil service then p else page_selectService service p
  | Submit => page_sendMessage p
  | ClickReset => page_resetToWelcome p
  | KeyEscape =>
      if initialized (appState w) then page_resetToWelcome p else p
  | CloseError => mkPage w (hideError (view p))
  | ErrorTimerFires =>
      if errorTimeout (view p)
      then mkPage w (set_errorTimeout false (hideError (view p)))
      else p
  | Online => mkPage w (hideError (view p))
  | Offline =>
      page_showError
        (lit "You are currently offline. Please check your internet connection.")
        p
  | Settled i o => page_settle i o p
  end.

(** The page once the script has run on a document: no timer is set, and
    the handler of [DOMContentLoaded] ends with [resetToWelcome]. *)
Definition page_loaded (document : Elements) (v : View) : Page :=
  page_resetToWelcome
    (mkPage (mkWorld (mkAppState None [] [] false false) document [])
       (set_errorTimeout false v)).

Inductive page_reachable : Page -> Prop :=
| page_reachable_loaded document v : page_reachable (page_loaded document v)
| page_reachable_act p a : page_reachable p -> page_reachable (act p a).

(** The event of the controller that an action amounts to, if any. *)
Definition event_of (a : Action) (p : Page) : option Event :=
  match a with
  | InputEmail v => Some (EditEmail v)
  | InputMessage v => Some (EditMessage v)
  | ClickCard service =>
      if is_nil service then None else Some (SelectService service)
  | Submit => Some SendMessage
  | ClickReset => Some ResetToWelcome
  | KeyEscape =>
      if initialized (appState (world p)) then Some ResetToWelcome else None
  | Settled i o => Some (Settle i o)
  | _ => None
  end.

End Actions.

Definition send_disabled (w : World) : bool :=
  negb (nonempty (option_map trim (messageInput (elements w))))
  || isLoading (appState w).

Definition button_tracks (p : Page) : Prop :=
  forall d, sendButton (view p) = Some d ->
            d = send_disabled (world p).

Definition typing_tracks (p : Page) : Prop :=
  forall h, typingIndicator (view p) = Some h ->
            h = negb (isLoading (appState (world p))).

(** What [button_tracks] and [typing_tracks] depend on. *)
Definition loading_facts (p : Page)
  : option bool * option bool * option jsstring * bool :=
  (sendButton (view p), typingIndicator (view p),
   messageInput (elements (world p)),
   isLoading (appState (world p))).


Definition cards_track (p : Page) : Prop :=
  let els := elements (world p) in
  Forall (fun disabled => disabled = negb (validateEmail els))
    (serviceCards (view p)) /\
  forall text hidden,
    emailError (view p) = Some (text, hidden) ->
    hidden = (validateEmail els
              || is_nil (string_of (option_map trim (emailInput els)))) /\
    (hidden = false -> text = lit "Please enter a valid email address").

Definition views_track (p : Page) : Prop :=
  (forall welcome chat,
      welcomeView (view p) = Some welcome ->
      chatView (view p) = Some chat ->
      chat = negb welcome) /\
  (chatView (view p) = Some false \/
   welcomeView (view p) = Some true ->
   initialized (appState (world p)) = true).

Definition toast_has_timer (p : Page) : Prop :=
  errorToast (view p) = Some false ->
  errorTimeout (view p) = true.

(** The parts of the view that only [validateEmailInput], [selectService]
    and [resetToWelcome] write, and what [showError] does to the rest. *)
Definition same_layout (p p' : Page) : Prop :=
  emailError (view p') = emailError (view p) /\
  serviceCards (view p') = serviceCards (view p) /\
  welcomeView (view p') = welcomeView (view p) /\
  chatView (view p') = chatView (view p) /\
  emailInput (elements (world p'))
  = emailInput (elements (world p)) /\
  ((errorToast (view p') = errorToast (view p) /\
    errorTimeout (view p') = errorTimeout (view p)) \/
   (errorToast (view p')
    = class_hidden false (errorToast (view p)) /\
    errorTimeout (view p') = true)).

(** A page on which a service without configuration is selected and "hi"
    is typed. *)
Definition payroll_ready : World :=
  run (engine := v8) (loaded full_document)
    [ EditEmail (lit "a@b.co"); SelectService (lit "payroll");
      EditMessage (lit "hi") ].

(** The presentation state of a document with every element and two
    service cards, and pages reached on it: the chat of the timesheet
    service with "hi" typed, and the same chat after a request has failed. *)
Definition full_view : View :=
  mkView (Some ([], false)) [false; false] (Some false) (Some false)
    (Some false) (Some true) (Some false) false.

Definition chat_page : Page :=
  fold_left (act (engine := v8))
    [ InputEmail (lit "a@b.co"); ClickCard timesheet; InputMessage (lit "hi") ]
    (page_loaded full_document full_view).

Definition failed_page : Page :=
  fold_left (act (engine := v8))
    [ Submit; Settled 0 (FetchResponse 500 (Normal VNull)) ]
    chat_page.

(** * Theorems *)

(** ** Strings and tables *)

Lemma jsstring_eqb_refl (a : jsstring) : eqb a a = true.
Proof.
  induction a as [|x a IH]; simpl; [reflexivity|].
  now rewrite N.eqb_refl, IH.
Qed.

Lemma jsstring_eqb_eq (a b : jsstring) : eqb a b = true <-> a = b.
Proof.
  split.
  - revert b; induction a as [|x a IH]; destruct b as [|y b]; simpl;
      try discriminate; [reflexivity|].
    intros H. apply andb_true_iff in H as [Hx Hr].
    apply N.eqb_eq in Hx. apply IH in Hr. now subst.
  - intros ->. apply jsstring_eqb_refl.
Qed.

Lemma SERVICES_own (id : jsstring) (service : Service) :
  table_lookup SERVICES id = Own service ->
  (id = timesheet /\ service = timesheet_service) \/
  (id = hr_policy /\ service = hr_policy_service).
Proof.
  unfold table_lookup, SERVICES. cbn [find fst snd].
  destruct (eqb timesheet id) eqn:Ets.
  - apply jsstring_eqb_eq in Ets. intros [= <-]. left. now split.
  - destruct (eqb hr_policy id) eqn:Ehr.
    + apply jsstring_eqb_eq in Ehr. intros [= <-]. right. now split.
    + destruct (existsb (eqb id) Object_prototype_keys); discriminate.
Qed.

Lemma SERVICES_timesheet : table_lookup SERVICES timesheet = Own timesheet_service.
Proof. reflexivity. Qed.

Lemma SERVICES_hr_policy : table_lookup SERVICES hr_policy = Own hr_policy_service.
Proof. reflexivity. Qed.

Lemma API_CONFIG_timesheet :
  table_lookup API_CONFIG timesheet = Own timesheet_config.
Proof. reflexivity. Qed.

Lemma API_CONFIG_hr_policy :
  table_lookup API_CONFIG hr_policy = Own hr_policy_config.
Proof. reflexivity. Qed.

Lemma validateEmail_nonempty (els : Elements) :
  validateEmail els = true -> nonempty (option_map trim (emailInput els)) = true.
Proof.
  unfold validateEmail.
  destruct (emailInput els) as [v|]; cbn [option_map nonempty].
  - destruct (trim v); [discriminate | reflexivity].
  - discriminate.
Qed.

(** ** Strings against zero *)

(** Decimal literals: a sign, a point and an exponent are read; white space
    around the literal is dropped; the empty literal is zero. *)
Lemma StringToNumber_above_zero_decimal :
  map StringToNumber_above_zero
    [ lit "5"; lit " 12 "; lit "+0.5"; lit ".5"; lit "5."; lit "1e3";
      lit "5.e-1"; lit "Infinity"; lit "+Infinity" ]
  = [ true; true; true; true; true; true; true; true; true ] /\
  map StringToNumber_above_zero
    [ []; lit "  "; lit "0"; lit "0.0"; lit "0e5"; lit "-3"; lit "-0";
      lit "-Infinity" ]
  = [ false; false; false; false; false; false; false; false ].
Proof. split; vm_compute; reflexivity. Qed.

(** What is not a literal is NaN, which is not above zero. *)
Lemma StringToNumber_above_zero_NaN :
  map StringToNumber_above_zero
    [ lit "abc"; lit "12px"; lit "1_000"; lit "."; lit "e3"; lit "1e";
      lit "1e+"; lit "1 2"; lit "++1"; lit "+-1"; lit "0x"; lit "+0x10";
      lit "-0x10"; lit "0b2"; lit "0o8"; lit "infinity"; lit "1.2.3";
      lit "[object Object]" ]
  = [ false; false; false; false; false; false; false; false; false; false;
      false; false; false; false; false; false; false; false ].
Proof. vm_compute; reflexivity. Qed.

Lemma StringToNumber_above_zero_integer_literals :
  map StringToNumber_above_zero
    [ lit "0x1F"; lit "0Xff"; lit "0b101"; lit "0o17"; lit " 0x10 " ]
  = [ true; true; true; true; true ] /\
  map StringToNumber_above_zero [ lit "0x0"; lit "0b0"; lit "0O00" ]
  = [ false; false; false ].
Proof. split; vm_compute; reflexivity. Qed.

(** A literal at or below half of the least double above zero is rounded
    to zero. *)
Lemma StringToNumber_above_zero_underflow :
  map StringToNumber_above_zero
    [ lit "5e-324"; lit "2.4703282292062328e-324"; lit "1e-400" ;
      lit "2.4703282292062327e-324" ]
  = [ true; true; false; false ].
Proof. vm_compute; reflexivity. Qed.

(** [v > 0] on V8 for values that are not numbers: a string and an array
    are compared through the number their text denotes. *)
Lemma greater_than_zero_v8 :
  greater_than_zero (engine := v8) (VStr (lit "5")) = Normal true /\
  greater_than_zero (engine := v8)
    (VArr [VNum (mkNumber Positive (lit "2"))]) = Normal true /\
  greater_than_zero (engine := v8) (VArr []) = Normal false /\
  greater_than_zero (engine := v8)
    (VArr [VNum (mkNumber Positive (lit "2"));
           VNum (mkNumber Positive (lit "3"))]) = Normal false /\
  greater_than_zero (engine := v8) (VObj []) = Normal false /\
  greater_than_zero (engine := v8) (VObj [(lit "toString", VNull)])
  = Throw (TypeError (lit "Cannot convert object to primitive value")).
Proof. repeat split; vm_compute; reflexivity. Qed.

(** ** The regular expression of [validateEmail] *)

Lemma nullable_matches (r : regex) : nullable r = true <-> matches r [].
Proof.
  split.
  - induction r as [| | c | ex | r1 IH1 r2 IH2 | r1 IH1 r2 IH2 | r IH];
      cbn [nullable]; intros H; try discriminate.
    + constructor.
    + apply orb_true_iff in H as [H | H];
        [apply m_alt_l | apply m_alt_r]; auto.
    + apply andb_true_iff in H as [H1 H2].
      change (@nil N) with (@nil N ++ []). constructor; auto.
    + constructor.
  - intros H. remember [] as s eqn:Es.
    induction H as [ | c | ex c Hc | r1 r2 s H IH | r1 r2 s H IH
                     | r1 r2 s1 s2 H1 IH1 H2 IH2 | r | r s1 s2 H1 IH1 H2 IH2 ];
      cbn [nullable]; try discriminate; auto.
    + now rewrite IH.
    + rewrite IH by assumption. apply orb_true_r.
    + apply app_eq_nil in Es as [-> ->]. now rewrite IH1, IH2.
Qed.

Lemma deriv_sound (c : N) (r : regex) (s : jsstring) :
  matches (deriv c r) s -> matches r (c :: s).
Proof.
  revert s.
  induction r as [| | d | ex | r1 IH1 r2 IH2 | r1 IH1 r2 IH2 | r IH];
    cbn [deriv]; intros s H.
  - inversion H.
  - inversion H.
  - destruct (c =? d) eqn:E; [|inversion H].
    apply N.eqb_eq in E. subst d. inversion H. constructor.
  - destruct (ex c) eqn:E; [inversion H|].
    inversion H. now constructor.
  - inversion H; subst; [apply m_alt_l | apply m_alt_r]; auto.
  - assert (Hseq : forall t, matches (Seq (deriv c r1) r2) t ->
                             matches (Seq r1 r2) (c :: t)).
    { intros t Ht. inversion Ht as [ | | | | | q1 q2 t1 t2 Ht1 Ht2 | | ]; subst.
      change (c :: t1 ++ t2) with ((c :: t1) ++ t2). constructor; auto. }
    destruct (nullable r1) eqn:En; [|now apply Hseq].
    inversion H; subst; [now apply Hseq|].
    change (c :: s) with ([] ++ c :: s).
    constructor; [now apply nullable_matches | auto].
  - inversion H as [ | | | | | q1 q2 t1 t2 Ht1 Ht2 | | ]; subst.
    change (c :: t1 ++ t2) with ((c :: t1) ++ t2).
    apply m_star_cons; auto.
Qed.

Lemma deriv_complete (c : N) (r : regex) (s : jsstring) :
  matches r (c :: s) -> matches (deriv c r) s.
Proof.
  intros H. remember (c :: s) as t eqn:Et. revert s Et.
  induction H as [ | d | ex d Hd | r1 r2 t H IH | r1 r2 t H IH
                   | r1 r2 t1 t2 H1 IH1 H2 IH2 | r | r t1 t2 H1 IH1 H2 IH2 ];
    intros s Et; cbn [deriv].
  - discriminate.
  - injection Et as -> <-. rewrite N.eqb_refl. constructor.
  - injection Et as -> <-. rewrite Hd. constructor.
  - apply m_alt_l. auto.
  - apply m_alt_r. auto.
  - destruct t1 as [|x t1].
    + cbn in Et. subst t2.
      assert (En : nullable r1 = true) by now apply nullable_matches.
      rewrite En. apply m_alt_r. now apply IH2.
    + cbn in Et. injection Et as -> <-.
      destruct (nullable r1); [apply m_alt_l|]; constructor; auto.
  - discriminate.
  - destruct t1 as [|x t1].
    + cbn in Et. now apply IH2.
    + cbn in Et. injection Et as -> <-.
      constructor; auto.
Qed.

Lemma test_matches (r : regex) (s : jsstring) :
  test r s = true <-> matches r s.
Proof.
  revert r. induction s as [|c s IH]; intros r; cbn [test].
  - apply nullable_matches.
  - rewrite IH. split; [apply deriv_sound | apply deriv_complete].
Qed.

Lemma matches_seq (r1 r2 : regex) (s : jsstring) :
  matches (Seq r1 r2) s <->
  exists s1 s2, s = s1 ++ s2 /\ matches r1 s1 /\ matches r2 s2.
Proof.
  split.
  - intros H. inversion H; subst. eauto.
  - intros [s1 [s2 [-> [H1 H2]]]]. now constructor.
Qed.

Lemma matches_chr (c : N) (s : jsstring) : matches (Chr c) s <-> s = [c].
Proof.
  split.
  - intros H. now inversion H.
  - intros ->. constructor.
Qed.

Lemma matches_star_class (ex : N -> bool) (s : jsstring) :
  matches (Star (NotIn ex)) s <-> Forall (fun c => ex c = false) s.
Proof.
  split.
  - intros H. remember (Star (NotIn ex)) as r eqn:Er.
    induction H as [ | | | | | | r | r s1 s2 H1 IH1 H2 IH2 ];
      try discriminate; [constructor|].
    injection Er as ->. inversion H1; subst.
    constructor; auto.
  - induction 1 as [|c s Hc Hs IH]; [constructor|].
    change (c :: s) with ([c] ++ s).
    apply m_star_cons; [now constructor | exact IH].
Qed.

Lemma matches_plus_class (ex : N -> bool) (s : jsstring) :
  matches (Plus (NotIn ex)) s <->
  s <> [] /\ Forall (fun c => ex c = false) s.
Proof.
  unfold Plus. rewrite matches_seq. split.
  - intros [s1 [s2 [-> [H1 H2]]]]. inversion H1; subst.
    split; [discriminate|].
    constructor; [assumption | now apply matches_star_class].
  - intros [Hne Hall]. destruct s as [|c s]; [contradiction|].
    inversion Hall; subst.
    exists [c], s. repeat split; [now constructor|].
    now apply matches_star_class.
Qed.

Lemma emailRegex_shape (s : jsstring) :
  Regex.test emailRegex s = true <-> email_shape s.
Proof.
  rewrite test_matches. unfold emailRegex, email_shape. split.
  - intros H.
    apply matches_seq in H as [local [s1 [-> [Hlocal H]]]].
    apply matches_seq in H as [at_ [s2 [-> [Hat H]]]].
    apply matches_seq in H as [domain [s3 [-> [Hdomain H]]]].
    apply matches_seq in H as [dot [tld [-> [Hdot Htld]]]].
    apply matches_chr in Hat, Hdot. subst at_ dot.
    apply matches_plus_class in Hlocal as [Hl1 Hl2].
    apply matches_plus_class in Hdomain as [Hd1 Hd2].
    apply matches_plus_class in Htld as [Ht1 Ht2].
    exists local, domain, tld. repeat split; auto.
    apply Forall_app; split; [assumption|].
    apply Forall_app; split; assumption.
  - intros [local [domain [tld [-> [Hl [Hd [Ht Hall]]]]]]].
    apply Forall_app in Hall as [Hl2 Hall].
    apply Forall_app in Hall as [Hd2 Ht2].
    apply matches_seq. exists local, ([64] ++ domain ++ [46] ++ tld).
    split; [reflexivity|]. split; [now apply matches_plus_class|].
    apply matches_seq. exists [64], (domain ++ [46] ++ tld).
    split; [reflexivity|]. split; [constructor|].
    apply matches_seq. exists domain, ([46] ++ tld).
    split; [reflexivity|]. split; [now apply matches_plus_class|].
    apply matches_seq. exists [46], tld.
    split; [reflexivity|]. split; [constructor|].
    now apply matches_plus_class.
Qed.

Lemma validateEmail_shape (els : Elements) :
  validateEmail els = true <->
  exists raw, emailInput els = Some raw /\ email_shape (trim raw).
Proof.
  unfold validateEmail. destruct (emailInput els) as [v|].
  - rewrite emailRegex_shape. split.
    + intros H. now exists v.
    + now intros [raw [[= ->] H]].
  - split; [discriminate | now intros [raw [? _]]].
Qed.

(** ** Selecting a service *)

Section SelectService.
Context {engine : Engine}.

(** C9. [validateEmail] accepts the content of the email input exactly
    when, trimmed, it has the shape local-part "@" domain-with-dot; it
    rejects "not-an-email", the empty string and "a@b". Whenever it rejects
    the input, [selectService] reports "Please enter a valid email address
    first." and leaves [appState], the requests in flight, the rendered
    messages and the input as they were. *)
Theorem selectService_invalid_email (serviceType : jsstring) (w : World) :
  (validateEmail (elements w) = true <->
   exists raw,
     emailInput (elements w) = Some raw /\ email_shape (trim raw)) /\
  (In (emailInput (elements w))
      [Some (lit "not-an-email"); Some []; Some (lit "a@b")] ->
   validateEmail (elements w) = false) /\
  (validateEmail (elements w) = false ->
   let w' := selectService serviceType w in
   appState w' = appState w /\
   inflight w' = inflight w /\
   messagesContainer (elements w') = messagesContainer (elements w) /\
   emailInput (elements w') = emailInput (elements w) /\
   errorMessage (elements w') =
     option_map (fun _ => lit "Please enter a valid email address first.")
       (errorMessage (elements w))).
Proof.
  split; [apply validateEmail_shape|]. split.
  - unfold validateEmail. intros [H | [H | [H | []]]]; rewrite <- H; reflexivity.
  - intros Hbad. unfold selectService. rewrite Hbad. cbn [negb orb].
    cbn [appState inflight elements]. unfold showError.
    destruct (errorMessage (elements w)) eqn:E; repeat split;
      cbn [option_map]; auto.
Qed.

(** C1, as the code has it. For a service of [SERVICES] and an email input
    that [validateEmail] accepts, [selectService] records the service and
    the trimmed email, marks the state initialized and empties
    [conversationHistory]; the welcome text of the service is not an entry
    of the history: it is rendered, and is then the only message shown, with
    the assistant's role. *)
Theorem selectService_valid (id : jsstring) (service : Service) (w : World) :
  table_lookup SERVICES id = Own service ->
  validateEmail (elements w) = true ->
  let w' := selectService id w in
  appState w' =
    mkAppState (Some id)
      (string_of (option_map trim (emailInput (elements w)))) []
      (isLoading (appState w)) true /\
  messagesContainer (elements w') =
    option_map (fun _ => [(assistant, welcomeMessage service)])
      (messagesContainer (elements w)) /\
  inflight w' = inflight w.
Proof.
  intros Hown Hvalid. unfold selectService.
  rewrite Hvalid, (validateEmail_nonempty _ Hvalid). cbn [negb orb].
  rewrite Hown. cbn [appState inflight elements].
  repeat split.
  unfold addMessage.
  destruct (messagesContainer (elements w)) as [shown|];
    cbn [set_messagesContainer messagesContainer cleared option_map];
    [|reflexivity].
  destruct (SERVICES_own _ _ Hown) as [[_ ->] | [_ ->]]; reflexivity.
Qed.

(** What [selectService] does with a service that [SERVICES] does not have,
    once the email input is accepted: the error is reported, nothing is
    rendered, and the state is already overwritten. *)
Lemma selectService_absent (id : jsstring) (w : World) :
  table_lookup SERVICES id = Absent ->
  validateEmail (elements w) = true ->
  appState (selectService id w) =
    mkAppState (Some id)
      (string_of (option_map trim (emailInput (elements w)))) []
      (isLoading (appState w)) true /\
  elements (selectService id w) =
    showError (lit "Invalid service selected.") (elements w).
Proof.
  intros Habsent Hvalid. unfold selectService.
  rewrite Hvalid, (validateEmail_nonempty _ Hvalid). cbn [negb orb].
  rewrite Habsent. now split.
Qed.

End SelectService.

Lemma selectService_invalid_email_witness :
  validateEmail (elements (page_with_email (lit "a@b"))) = false /\
  appState (selectService (engine := v8) timesheet (page_with_email (lit "a@b")))
  = appState (page_with_email (lit "a@b")).
Proof.
  split; [reflexivity|].
  apply (proj2 (proj2 (selectService_invalid_email (engine := v8) timesheet
                         (page_with_email (lit "a@b"))))).
  reflexivity.
Defined.

Lemma selectService_valid_witness :
  table_lookup SERVICES hr_policy = Own hr_policy_service /\
  validateEmail (elements (page_with_email (lit " a@b.co "))) = true /\
  appState (selectService (engine := v8) hr_policy
              (page_with_email (lit " a@b.co ")))
  = mkAppState (Some hr_policy) (lit "a@b.co") [] false true.
Proof.
  split; [reflexivity|]. split; [reflexivity|].
  apply (selectService_valid (engine := v8) hr_policy hr_policy_service
           (page_with_email (lit " a@b.co "))); reflexivity.
Defined.

(** C1 as stated fails: after [selectService] the history is empty, so it
    does not hold the welcome text. *)
Lemma selectService_history_lacks_welcome :
  ~ (forall id service w,
        table_lookup SERVICES id = Own service ->
        validateEmail (elements w) = true ->
        conversationHistory (appState (selectService (engine := v8) id w))
        = [mkTurn assistant (VStr (welcomeMessage service))]).
Proof.
  intros H.
  specialize (H timesheet timesheet_service (page_with_email (lit "a@b.co"))
                eq_refl eq_refl).
  discriminate H.
Qed.

(** C2, the code at a service that [SERVICES] does not have. In a timesheet
    session with one exchange in its history, [selectService("payroll")]
    reports "Invalid service selected." and yet has replaced the selected
    service by "payroll" and emptied the history. *)
Theorem selectService_unknown_service_overwrites_state :
  table_lookup SERVICES (lit "payroll") = Absent /\
  appState timesheet_session
  = mkAppState (Some timesheet) (lit "a@b.co")
      [mkTurn user (VStr (lit "hi")); mkTurn assistant (VStr (lit "ok"))]
      false true /\
  appState (selectService (engine := v8) (lit "payroll") timesheet_session)
  = mkAppState (Some (lit "payroll")) (lit "a@b.co") [] false true /\
  errorMessage
    (elements (selectService (engine := v8) (lit "payroll") timesheet_session))
  = Some (lit "Invalid service selected.") /\
  messagesContainer
    (elements (selectService (engine := v8) (lit "payroll") timesheet_session))
  = messagesContainer (elements timesheet_session).
Proof. repeat split; reflexivity. Qed.

(** ** Sending a message *)

Lemma API_CONFIG_own (id : jsstring) (cfg : ServiceConfig) :
  table_lookup API_CONFIG id = Own cfg ->
  (id = timesheet /\ cfg = timesheet_config) \/
  (id = hr_policy /\ cfg = hr_policy_config).
Proof.
  unfold table_lookup, API_CONFIG. cbn [find fst snd].
  destruct (eqb timesheet id) eqn:Ets.
  - apply jsstring_eqb_eq in Ets. intros [= <-]. left. now split.
  - destruct (eqb hr_policy id) eqn:Ehr.
    + apply jsstring_eqb_eq in Ehr. intros [= <-]. right. now split.
    + destruct (existsb (eqb id) Object_prototype_keys); discriminate.
Qed.

Lemma SERVICES_API_CONFIG (id : jsstring) (service : Service) :
  table_lookup SERVICES id = Own service ->
  exists cfg, table_lookup API_CONFIG id = Own cfg.
Proof.
  intros H. destruct (SERVICES_own _ _ H) as [[-> _] | [-> _]];
    eexists; reflexivity.
Qed.

Lemma nth_error_snoc {A : Type} (l : list A) (x : A) :
  nth_error (l ++ [x]) (List.length l) = Some x.
Proof. induction l as [|y l IH]; [reflexivity | exact IH]. Qed.

Lemma remove_nth_snoc {A : Type} (l : list A) (x : A) :
  remove_nth (List.length l) (l ++ [x]) = l.
Proof.
  induction l as [|y l IH]; [reflexivity|].
  cbn [List.length app remove_nth]. now rewrite IH.
Qed.

Section SendMessage.
Context {engine : Engine}.

Lemma addMessage_string (r : Role) (c : N) (rest : jsstring) (els : Elements) :
  addMessage r (VStr (c :: rest)) els = Normal (with_message r (c :: rest) els).
Proof.
  unfold addMessage, with_message.
  destruct els as [ei mi [shown|] em]; reflexivity.
Qed.

Lemma sendMessage_guard (w : World) :
  isLoading (appState w) = true -> sendMessage w = w.
Proof.
  intros H. unfold sendMessage. rewrite H.
  now rewrite orb_true_r.
Qed.

(** What [sendMessage] does when it gets as far as [fetch]. *)
Lemma sendMessage_issues (id : jsstring) (cfg : ServiceConfig)
  (raw : jsstring) (c : N) (rest : jsstring) (w : World) :
  selectedService (appState w) = Some id ->
  table_lookup API_CONFIG id = Own cfg ->
  initialized (appState w) = true ->
  isLoading (appState w) = false ->
  messageInput (elements w) = Some raw ->
  trim raw = c :: rest ->
  exists payload,
    sendMessage w =
      mkWorld (showTyping true (appState w))
        (with_message user (c :: rest)
           (set_messageInput (Some []) (elements w)))
        (inflight w ++ [mkPending (c :: rest) cfg payload]).
Proof.
  intros Hsel Hcfg Hinit Hload Hin Htrim.
  unfold sendMessage.
  rewrite Hin, Hinit, Hload. cbn [option_map]. rewrite Htrim.
  cbn [nonempty negb orb string_of]. rewrite addMessage_string.
  unfold callAPI_start, selected_key, selected, showTyping.
  cbn [selectedService userEmail]. rewrite Hsel, Hcfg.
  destruct (API_CONFIG_own _ _ Hcfg) as [[-> ->] | [-> ->]];
    eexists; reflexivity.
Qed.

(** The promise of such a call is pending when the call hands control
    back. *)
Lemma sendMessage_promise_issues (id : jsstring) (cfg : ServiceConfig)
  (raw : jsstring) (c : N) (rest : jsstring) (w : World) :
  selectedService (appState w) = Some id ->
  table_lookup API_CONFIG id = Own cfg ->
  initialized (appState w) = true ->
  isLoading (appState w) = false ->
  messageInput (elements w) = Some raw ->
  trim raw = c :: rest ->
  sendMessage_promise w = None.
Proof.
  intros Hsel Hcfg Hinit Hload Hin Htrim.
  unfold sendMessage_promise.
  rewrite Hin, Hinit, Hload. cbn [option_map]. rewrite Htrim.
  cbn [nonempty negb orb string_of]. rewrite addMessage_string.
  unfold callAPI_start, selected_key, selected, showTyping.
  cbn [selectedService userEmail]. rewrite Hsel, Hcfg.
  destruct (API_CONFIG_own _ _ Hcfg) as [[-> ->] | [-> ->]]; reflexivity.
Qed.

Lemma settle_promise_last (o : FetchOutcome) (app : AppState) (els : Elements)
  (fl : list Pending) (p : Pending) :
  settle_promise (List.length fl) o (mkWorld app els (fl ++ [p]))
  = Some (Normal VUndefined).
Proof.
  unfold settle_promise. cbn [inflight]. now rewrite nth_error_snoc.
Qed.

Lemma settle_last (o : FetchOutcome) (app : AppState) (els : Elements)
  (fl : list Pending) (p : Pending) :
  settle (List.length fl) o (mkWorld app els (fl ++ [p])) =
  sendMessage_resume (pending_message p) (callAPI_resume p o app)
    (mkWorld app els fl).
Proof.
  unfold settle. cbn [inflight appState elements].
  now rewrite nth_error_snoc, remove_nth_snoc.
Qed.

Lemma sendMessage_resume_throw (msg : jsstring) (error : Error) (w : World) :
  sendMessage_resume msg (Throw error) w =
  mkWorld (showTyping false (appState w))
    (with_message assistant apology (showError (errorMsg error) (elements w)))
    (inflight w).
Proof.
  unfold sendMessage_resume, sendMessage_catch, apology.
  cbn [lit list_ascii_of_string map]. now rewrite addMessage_string.
Qed.

Lemma sendMessage_resume_string (msg : jsstring) (c : N) (rest : jsstring)
  (w : World) :
  sendMessage_resume msg (Normal (VStr (c :: rest))) w =
  mkWorld (showTyping false (push_exchange msg (VStr (c :: rest)) (appState w)))
    (with_message assistant (c :: rest) (elements w))
    (inflight w).
Proof.
  unfold sendMessage_resume. now rewrite addMessage_string.
Qed.

End SendMessage.

Section Exchanges.
Context {engine : Engine}.

Lemma status_405_errorMsg (id : jsstring) (cfg : ServiceConfig)
  (p : Pending) (body : completion value) (app : AppState) :
  table_lookup API_CONFIG id = Own cfg ->
  pending_config p = cfg ->
  exists error,
    callAPI_resume p (FetchResponse 405 body) app = Throw error /\
    errorMsg error =
      lit "Method not allowed - please check the API endpoint configuration.".
Proof.
  intros Hcfg Hp. unfold callAPI_resume, callAPI_try. cbn [response_ok].
  change (negb ((200 <=? 405) && (405 <=? 299))) with true.
  change (405 =? 405) with true. cbv iota. rewrite Hp.
  destruct (API_CONFIG_own _ _ Hcfg) as [[_ ->] | [_ ->]];
    eexists; (split; [reflexivity | vm_compute; reflexivity]).
Qed.

(** C3, as the code has it. In a session of a service of [SERVICES], with
    no request pending and a message that is not blank, a response of status
    405 makes [sendMessage] report "Method not allowed - please check the
    API endpoint configuration."; [conversationHistory] is as before the
    call, without the user's entry; the user's message and then the
    assistant's apology are rendered; and [isLoading] is false afterwards. *)
Theorem sendMessage_status_405 (id : jsstring) (service : Service)
  (raw : jsstring) (body : completion value) (w : World) :
  selectedService (appState w) = Some id ->
  table_lookup SERVICES id = Own service ->
  initialized (appState w) = true ->
  isLoading (appState w) = false ->
  messageInput (elements w) = Some raw ->
  trim raw <> [] ->
  let w' := settle (List.length (inflight w)) (FetchResponse 405 body)
              (sendMessage w) in
  errorMessage (elements w') =
    option_map
      (fun _ =>
         lit "Method not allowed - please check the API endpoint configuration.")
      (errorMessage (elements w)) /\
  conversationHistory (appState w') = conversationHistory (appState w) /\
  messagesContainer (elements w') =
    option_map (fun shown => shown ++ [(user, trim raw); (assistant, apology)])
      (messagesContainer (elements w)) /\
  isLoading (appState w') = false /\
  inflight w' = inflight w.
Proof.
  intros Hsel Hown Hinit Hload Hin Htrim.
  destruct (SERVICES_API_CONFIG _ _ Hown) as [cfg Hcfg].
  destruct (trim raw) as [|c rest] eqn:Etrim; [contradiction|].
  destruct (sendMessage_issues id cfg raw c rest w Hsel Hcfg Hinit Hload Hin Etrim)
    as [payload Hsend].
  cbv zeta. rewrite Hsend, settle_last.
  destruct (status_405_errorMsg id cfg (mkPending (c :: rest) cfg payload) body
              (showTyping true (appState w)) Hcfg eq_refl) as [error [-> Hmsg]].
  rewrite sendMessage_resume_throw, Hmsg.
  cbn [appState elements inflight showTyping conversationHistory isLoading].
  unfold with_message, showError.
  destruct (elements w) as [ei mi mc em].
  cbn [set_messageInput set_messagesContainer set_errorMessage
       messagesContainer errorMessage emailInput messageInput].
  destruct em as [e|], mc as [shown|]; cbn; repeat split;
    now rewrite <- app_assoc.
Qed.


(** When [fetch] itself fails, [callAPI] replaces the error by one whose
    message no longer contains "Failed to fetch", and [sendMessage] falls
    through to the same fixed text. *)
Lemma network_failure_reports_fixed_text (p : Pending) (app : AppState) :
  exists error,
    callAPI_resume p (FetchRejected (TypeError (lit "Failed to fetch"))) app
    = Throw error /\
    errorMsg error = lit "Sorry, I encountered an error. Please try again.".
Proof. eexists. split; reflexivity. Qed.

End Exchanges.

Section RoundTrips.
Context {engine : Engine}.

Lemma callAPI_resume_ok (p : Pending) (status : N) (data : value)
  (app : AppState) (response : value) :
  response_ok status = true ->
  read_response app data = Normal response ->
  callAPI_resume p (FetchResponse status (Normal data)) app = Normal response.
Proof.
  intros Hok Hread. unfold callAPI_resume, callAPI_try.
  rewrite Hok. cbn [negb bind]. now rewrite Hread.
Qed.

Lemma read_response_timesheet_ok (app : AppState) :
  selectedService app = Some timesheet ->
  read_response app (VObj [(lit "response", VStr (lit "ok"))])
  = Normal (VStr (lit "ok")).
Proof.
  intros Hsel. unfold read_response, selected. rewrite Hsel. reflexivity.
Qed.

Lemma read_response_hr_policy_sources (app : AppState) :
  selectedService app = Some hr_policy ->
  read_response app
    (VObj [(lit "answer", VStr (lit "A"));
           (lit "sources", VArr [VStr (lit "doc1"); VStr (lit "doc2")])])
  = Normal (VStr (lit "A" ++ [10; 10] ++ lit "Sources: doc1, doc2")).
Proof.
  intros Hsel. unfold read_response, selected. rewrite Hsel. reflexivity.
Qed.

Lemma ToString_array (items : list value) :
  ToString (VArr items) = Array_join (lit ",") items.
Proof.
  unfold Array_join. cbn [ToString]. f_equal.
  induction items as [|x items IH]; [reflexivity|].
  cbn [map_completion]. now rewrite <- IH.
Qed.

Lemma Array_join_strings (sep : jsstring) (parts : list jsstring) :
  Array_join sep (map VStr parts) = Normal (join sep parts).
Proof.
  unfold Array_join.
  assert (H : map_completion
                (fun x => match x with
                          | VUndefined | VNull => Normal []
                          | _ => ToString x
                          end) (map VStr parts) = Normal parts).
  { induction parts as [|p parts IH]; [reflexivity|].
    cbn [map map_completion ToString bind]. now rewrite IH. }
  now rewrite H.
Qed.

(** The fallback is what [callAPI] returns for a timesheet body without a
    truthy [response] or [message], and for an hr-policy body without a
    truthy [answer], [response], [message] or [sources]. *)
Lemma read_response_fallback (app : AppState)
  (props : list (jsstring * value)) :
  (forall key x, own_property props key = Some x -> truthy x = false) ->
  selectedService app = Some timesheet \/ selectedService app = Some hr_policy ->
  read_response app (VObj props) = Normal (VStr fallback).
Proof.
  intros Hfalsy Hsel.
  assert (Hget : forall key, exists x,
               get (VObj props) key = Normal x /\ truthy x = false).
  { intros key. cbn [get].
    destruct (own_property props key) as [x|] eqn:E.
    - exists x. split; [reflexivity | now apply (Hfalsy key)].
    - now exists VUndefined. }
  unfold read_response, selected.
  destruct (Hget (lit "response")) as [r [-> Hr]].
  destruct (Hget (lit "message")) as [m [-> Hm]].
  destruct (Hget (lit "answer")) as [a [-> Ha]].
  destruct (Hget (lit "sources")) as [src [-> Hsrc]].
  destruct Hsel as [-> | ->].
  - change (eqb timesheet timesheet) with true. cbn [bind].
    unfold or_else. now rewrite Hr, Hm.
  - change (eqb hr_policy timesheet) with false.
    change (eqb hr_policy hr_policy) with true. cbn [bind].
    rewrite Hsrc. cbn [bind]. unfold or_else. now rewrite Ha, Hr, Hm.
Qed.

(** For an hr-policy body that has sources and nothing else, the literal
    "undefined" takes the place of the answer. *)
Lemma read_response_sources_only (app : AppState) (first : jsstring)
  (others : list jsstring) :
  selectedService app = Some hr_policy ->
  read_response app
    (VObj [(lit "sources", VArr (map VStr (first :: others)))])
  = Normal
      (VStr (lit "undefined" ++ [10; 10] ++ lit "Sources: "
             ++ join (lit ", ") (first :: others))).
Proof.
  intros Hsel. unfold read_response, selected. rewrite Hsel.
  change (eqb hr_policy timesheet) with false.
  change (eqb hr_policy hr_policy) with true. cbv iota.
  change (get _ (lit "answer")) with (@Normal value VUndefined).
  change (get _ (lit "response")) with (@Normal value VUndefined).
  change (get _ (lit "message")) with (@Normal value VUndefined).
  change (get _ (lit "sources"))
    with (Normal (VArr (map VStr (first :: others)))).
  cbn [bind or_else truthy length_positive map is_nil negb call_join].
  change (VStr first :: map VStr others) with (map VStr (first :: others)).
  rewrite Array_join_strings. reflexivity.
Qed.

(** What a completed exchange leaves, when the response is a string that
    is not empty. *)
Lemma exchange_completes (id : jsstring) (cfg : ServiceConfig)
  (raw : jsstring) (status : N) (data : value) (c : N) (rest : jsstring)
  (w : World) :
  selectedService (appState w) = Some id ->
  table_lookup API_CONFIG id = Own cfg ->
  initialized (appState w) = true ->
  isLoading (appState w) = false ->
  messageInput (elements w) = Some raw ->
  trim raw <> [] ->
  response_ok status = true ->
  read_response (showTyping true (appState w)) data
  = Normal (VStr (c :: rest)) ->
  let w' := settle (List.length (inflight w))
              (FetchResponse status (Normal data)) (sendMessage w) in
  conversationHistory (appState w') =
    conversationHistory (appState w)
    ++ [mkTurn user (VStr (trim raw)); mkTurn assistant (VStr (c :: rest))] /\
  messagesContainer (elements w') =
    option_map
      (fun shown => shown ++ [(user, trim raw); (assistant, c :: rest)])
      (messagesContainer (elements w)) /\
  isLoading (appState w') = false /\
  inflight w' = inflight w.
Proof.
  intros Hsel Hcfg Hinit Hload Hin Htrim Hok Hread.
  destruct (trim raw) as [|c0 rest0] eqn:Etrim; [contradiction|].
  destruct (sendMessage_issues id cfg raw c0 rest0 w Hsel Hcfg Hinit Hload Hin
              Etrim) as [payload Hsend].
  cbv zeta. rewrite Hsend, settle_last.
  rewrite (callAPI_resume_ok _ _ _ _ _ Hok Hread).
  rewrite sendMessage_resume_string.
  cbn [appState elements inflight showTyping push_exchange
       conversationHistory isLoading pending_message].
  unfold with_message.
  destruct (elements w) as [ei mi mc em].
  cbn [set_messageInput set_messagesContainer messagesContainer].
  destruct mc as [shown|]; cbn; repeat split; now rewrite <- app_assoc.
Qed.

(** C7. In a timesheet session with no request pending, when "hi" is sent
    and the transport answers with a successful response whose body is
    [{"response": "ok"}], [callAPI] returns "ok", and the history gains the
    user's entry "hi" followed by the assistant's entry "ok"; the two are
    rendered in the same order, and [isLoading] is false afterwards.
    [sendMessage] itself returns no entry: the promise of the call is
    pending while the request is in flight, and is resolved with
    [undefined] when the exchange is recorded. *)
Theorem timesheet_round_trip (raw : jsstring) (status : N) (w : World) :
  selectedService (appState w) = Some timesheet ->
  initialized (appState w) = true ->
  isLoading (appState w) = false ->
  messageInput (elements w) = Some raw ->
  trim raw = lit "hi" ->
  response_ok status = true ->
  let data := VObj [(lit "response", VStr (lit "ok"))] in
  let w' := settle (List.length (inflight w))
              (FetchResponse status (Normal data)) (sendMessage w) in
  (forall p,
      callAPI_resume p (FetchResponse status (Normal data))
        (appState (sendMessage w))
      = Normal (VStr (lit "ok"))) /\
  conversationHistory (appState w') =
    conversationHistory (appState w)
    ++ [mkTurn user (VStr (lit "hi")); mkTurn assistant (VStr (lit "ok"))] /\
  messagesContainer (elements w') =
    option_map
      (fun shown => shown ++ [(user, lit "hi"); (assistant, lit "ok")])
      (messagesContainer (elements w)) /\
  isLoading (appState w') = false /\
  inflight w' = inflight w /\
  sendMessage_promise w = None /\
  settle_promise (List.length (inflight w))
    (FetchResponse status (Normal data)) (sendMessage w)
  = Some (Normal VUndefined).
Proof.
  intros Hsel Hinit Hload Hin Htrim Hok.
  assert (Hne : trim raw <> []) by (rewrite Htrim; discriminate).
  cbv zeta. split.
  - intros p.
    destruct (sendMessage_issues timesheet timesheet_config raw 104 [105] w
                Hsel API_CONFIG_timesheet Hinit Hload Hin Htrim)
      as [payload ->].
    apply callAPI_resume_ok; [exact Hok|].
    now apply read_response_timesheet_ok.
  - assert (Hread : read_response (showTyping true (appState w))
                      (VObj [(lit "response", VStr (lit "ok"))])
                    = Normal (VStr (lit "ok")))
      by now apply read_response_timesheet_ok.
    destruct (exchange_completes timesheet timesheet_config raw status _ 111
                [107] w Hsel API_CONFIG_timesheet Hinit Hload Hin Hne Hok
                Hread) as [Hhist [Hshown [Hidle Hflight]]].
    rewrite Htrim in Hhist, Hshown.
    split; [exact Hhist|]. split; [exact Hshown|].
    split; [exact Hidle|]. split; [exact Hflight|].
    split.
    + exact (sendMessage_promise_issues timesheet timesheet_config raw 104
               [105] w Hsel API_CONFIG_timesheet Hinit Hload Hin Htrim).
    + destruct (sendMessage_issues timesheet timesheet_config raw 104 [105] w
                  Hsel API_CONFIG_timesheet Hinit Hload Hin Htrim)
        as [payload ->].
      apply settle_promise_last.
Qed.

(** C8. In an hr-policy session with no request pending, when a message is
    sent and the transport answers with a successful response whose body is
    [{"answer":"A","sources":["doc1","doc2"]}], the content of the
    assistant's entry, and the text rendered for it, is "A", two newlines
    and "Sources: doc1, doc2". *)
Theorem hr_policy_sources_formatting (raw : jsstring) (status : N)
  (w : World) :
  selectedService (appState w) = Some hr_policy ->
  initialized (appState w) = true ->
  isLoading (appState w) = false ->
  messageInput (elements w) = Some raw ->
  trim raw <> [] ->
  response_ok status = true ->
  let data :=
    VObj [(lit "answer", VStr (lit "A"));
          (lit "sources", VArr [VStr (lit "doc1"); VStr (lit "doc2")])] in
  let text := lit "A" ++ [10; 10] ++ lit "Sources: doc1, doc2" in
  let w' := settle (List.length (inflight w))
              (FetchResponse status (Normal data)) (sendMessage w) in
  conversationHistory (appState w') =
    conversationHistory (appState w)
    ++ [mkTurn user (VStr (trim raw)); mkTurn assistant (VStr text)] /\
  messagesContainer (elements w') =
    option_map (fun shown => shown ++ [(user, trim raw); (assistant, text)])
      (messagesContainer (elements w)).
Proof.
  intros Hsel Hinit Hload Hin Hne Hok. cbv zeta.
  destruct (exchange_completes hr_policy hr_policy_config raw status
              (VObj [(lit "answer", VStr (lit "A"));
                     (lit "sources",
                      VArr [VStr (lit "doc1"); VStr (lit "doc2")])])
              65 ([10; 10] ++ lit "Sources: doc1, doc2")
              w Hsel API_CONFIG_hr_policy Hinit Hload Hin Hne Hok)
    as [Hhist [Hshown _]].
  - now apply read_response_hr_policy_sources.
  - split; [exact Hhist | exact Hshown].
Qed.

End RoundTrips.

Lemma sendMessage_status_405_witness :
  selectedService (appState timesheet_ready) = Some timesheet /\
  trim (lit "hi") <> [] /\
  conversationHistory
    (appState (settle (engine := v8) (List.length (inflight timesheet_ready))
                 (FetchResponse 405 (Normal VNull))
                 (sendMessage (engine := v8) timesheet_ready)))
  = conversationHistory (appState timesheet_ready).
Proof.
  split; [reflexivity|]. split; [discriminate|].
  apply (sendMessage_status_405 (engine := v8) timesheet timesheet_service
           (lit "hi") (Normal VNull) timesheet_ready);
    solve [reflexivity | discriminate].
Defined.

(** C3 as stated fails: after a response of status 405 the history holds no
    entry for the message that was sent, and an assistant message, the
    apology, has been rendered after the user's. *)
Lemma status_405_history_lacks_user_turn :
  conversationHistory
    (appState (settle (engine := v8) 0 (FetchResponse 405 (Normal VNull))
                 timesheet_waiting))
  = [] /\
  ~ In (mkTurn user (VStr (lit "hi")))
      (conversationHistory
         (appState (settle (engine := v8) 0 (FetchResponse 405 (Normal VNull))
                      timesheet_waiting))) /\
  messagesContainer
    (elements (settle (engine := v8) 0 (FetchResponse 405 (Normal VNull))
                 timesheet_waiting))
  = Some [ (assistant, welcomeMessage timesheet_service);
           (user, lit "hi"); (assistant, apology) ].
Proof.
  split; [reflexivity|]. split; [|reflexivity].
  intros [].
Qed.



Lemma timesheet_round_trip_witness :
  selectedService (appState timesheet_ready) = Some timesheet /\
  response_ok 200 = true /\
  conversationHistory
    (appState (settle (engine := v8) (List.length (inflight timesheet_ready))
                 (FetchResponse 200
                    (Normal (VObj [(lit "response", VStr (lit "ok"))])))
                 (sendMessage (engine := v8) timesheet_ready)))
  = conversationHistory (appState timesheet_ready)
    ++ [mkTurn user (VStr (lit "hi")); mkTurn assistant (VStr (lit "ok"))].
Proof.
  split; [reflexivity|]. split; [reflexivity|].
  apply (timesheet_round_trip (engine := v8) (lit "hi") 200 timesheet_ready);
    reflexivity.
Defined.

(** C7 as stated fails in its last clause: the exchange is recorded, and
    [callAPI] has returned "ok", but the call of [sendMessage] returns a
    promise that is resolved with [undefined], which is neither the
    assistant's entry nor its content. *)
Lemma sendMessage_returns_no_turn :
  conversationHistory
    (appState
       (settle (engine := v8) 0
          (FetchResponse 200
             (Normal (VObj [(lit "response", VStr (lit "ok"))])))
          timesheet_waiting))
  = [mkTurn user (VStr (lit "hi")); mkTurn assistant (VStr (lit "ok"))] /\
  sendMessage_promise (engine := v8) timesheet_ready = None /\
  settle_promise 0
    (FetchResponse 200 (Normal (VObj [(lit "response", VStr (lit "ok"))])))
    timesheet_waiting
  = Some (Normal VUndefined) /\
  VUndefined <> Turn_object (mkTurn assistant (VStr (lit "ok"))) /\
  VUndefined <> VStr (lit "ok").
Proof.
  split; [reflexivity|]. split; [reflexivity|]. split; [reflexivity|].
  split; discriminate.
Qed.

Lemma hr_policy_sources_formatting_witness :
  selectedService
    (appState (selectService (engine := v8) hr_policy
                 (page_with_email (lit "a@b.co"))))
  = Some hr_policy /\
  conversationHistory
    (appState
       (settle (engine := v8) 0
          (FetchResponse 200
             (Normal
                (VObj [(lit "answer", VStr (lit "A"));
                       (lit "sources",
                        VArr [VStr (lit "doc1"); VStr (lit "doc2")])])))
          (sendMessage (engine := v8)
             (step (engine := v8)
                (selectService (engine := v8) hr_policy
                   (page_with_email (lit "a@b.co")))
                (EditMessage (lit "leave?"))))))
  = [ mkTurn user (VStr (lit "leave?"));
      mkTurn assistant
        (VStr (lit "A" ++ [10; 10] ++ lit "Sources: doc1, doc2")) ].
Proof.
  split; [reflexivity|].
  apply (hr_policy_sources_formatting (engine := v8) (lit "leave?") 200
           (step (engine := v8)
              (selectService (engine := v8) hr_policy
                 (page_with_email (lit "a@b.co")))
              (EditMessage (lit "leave?"))));
    solve [reflexivity | discriminate].
Defined.

(** C4, the code at an hr-policy body with sources and no answer. For the
    body [{"sources":["doc1","doc2"]}] [callAPI] returns "undefined", two
    newlines and "Sources: doc1, doc2", and that is the content of the
    assistant's entry, where the fallback "Response received successfully."
    was to be. *)
Theorem hr_policy_sources_without_answer :
  callAPI_resume (engine := v8)
    (mkPending (lit "leave?") hr_policy_config (QueryPayload (lit "leave?")))
    (FetchResponse 200
       (Normal
          (VObj [(lit "sources",
                  VArr [VStr (lit "doc1"); VStr (lit "doc2")])])))
    (appState hr_policy_waiting)
  = Normal (VStr (lit "undefined" ++ [10; 10] ++ lit "Sources: doc1, doc2")) /\
  conversationHistory
    (appState
       (settle (engine := v8) 0
          (FetchResponse 200
             (Normal
                (VObj [(lit "sources",
                        VArr [VStr (lit "doc1"); VStr (lit "doc2")])])))
          hr_policy_waiting))
  = [ mkTurn user (VStr (lit "leave?"));
      mkTurn assistant
        (VStr (lit "undefined" ++ [10; 10] ++ lit "Sources: doc1, doc2")) ] /\
  lit "undefined" ++ [10; 10] ++ lit "Sources: doc1, doc2" <> fallback.
Proof.
  split; [reflexivity|]. split; [reflexivity|]. discriminate.
Qed.

(** ** Requests in flight *)

Section InFlight.
Context {engine : Engine}.

Lemma selectService_frame (serviceType : jsstring) (w : World) :
  isLoading (appState (selectService serviceType w)) = isLoading (appState w) /\
  inflight (selectService serviceType w) = inflight w.
Proof.
  unfold selectService.
  destruct (negb (validateEmail (elements w))
            || negb (nonempty (option_map trim (emailInput (elements w)))));
    [split; reflexivity|].
  destruct (table_lookup SERVICES serviceType); split; reflexivity.
Qed.

Lemma sendMessage_resume_frame (msg : jsstring) (result : completion value)
  (w : World) :
  isLoading (appState (sendMessage_resume msg result w)) = false /\
  inflight (sendMessage_resume msg result w) = inflight w.
Proof.
  unfold sendMessage_resume.
  destruct result as [response|error]; [|split; reflexivity].
  destruct (addMessage assistant response (elements w)); split; reflexivity.
Qed.

Lemma sendMessage_frame (w : World) :
  sendMessage w = w \/
  (isLoading (appState w) = false /\
   ((isLoading (appState (sendMessage w)) = true /\
     exists p, inflight (sendMessage w) = inflight w ++ [p]) \/
    (isLoading (appState (sendMessage w)) = false /\
     inflight (sendMessage w) = inflight w))).
Proof.
  unfold sendMessage.
  destruct (nonempty (option_map trim (messageInput (elements w))));
    cbn [negb orb]; [|now left].
  destruct (isLoading (appState w)) eqn:Hload; cbn [orb]; [now left|].
  destruct (initialized (appState w)); cbn [negb]; [|now left].
  right. split; [reflexivity|].
  destruct (addMessage user _ _) as [els2|error].
  - destruct (callAPI_start _ _) as [p|error].
    + left. split; [reflexivity|]. now exists p.
    + right.
      match goal with
      | |- context [sendMessage_resume ?m ?r ?x] =>
          destruct (sendMessage_resume_frame m r x) as [Hidle Hfl]
      end.
      split; [exact Hidle | exact Hfl].
  - right. cbn [appState inflight]. now split.
Qed.

Lemma settle_frame (i : nat) (o : FetchOutcome) (w : World) :
  settle i o w = w \/
  (isLoading (appState (settle i o w)) = false /\
   inflight (settle i o w) = remove_nth i (inflight w) /\
   (i < List.length (inflight w))%nat).
Proof.
  unfold settle.
  destruct (nth_error (inflight w) i) as [p|] eqn:Hnth; [|now left].
  right.
  destruct (sendMessage_resume_frame (pending_message p)
              (callAPI_resume p o (appState w))
              (mkWorld (appState w) (elements w) (remove_nth i (inflight w))))
    as [Hload Hfl].
  repeat split; [exact Hload | exact Hfl |].
  apply nth_error_Some. now rewrite Hnth.
Qed.

Lemma steady_invariant (w : World) :
  steady w ->
  (isLoading (appState w) = false /\ inflight w = []) \/
  (isLoading (appState w) = true /\ exists p, inflight w = [p]).
Proof.
  induction 1 as [document | w Hw IH Hidle | w e Hw IH He].
  - left. now split.
  - left. cbn [resetToWelcome appState inflight isLoading]. now split.
  - destruct e as [v | v | serviceType | | | i o]; cbn [step].
    + exact IH.
    + exact IH.
    + destruct (selectService_frame serviceType w) as [-> ->]. exact IH.
    + destruct (sendMessage_frame w)
        as [-> | [Hidle [[Hload [p Hfl]] | [Hload Hfl]]]]; [exact IH | |].
      * right. split; [exact Hload|]. exists p. rewrite Hfl.
        destruct IH as [[_ ->] | [Hbusy _]]; [reflexivity | congruence].
      * left. split; [exact Hload|]. rewrite Hfl.
        destruct IH as [[_ Hnil] | [Hbusy _]]; [exact Hnil | congruence].
    + contradiction.
    + destruct (settle_frame i o w) as [-> | [Hload [Hfl Hlt]]]; [exact IH|].
      left. split; [exact Hload|]. rewrite Hfl.
      destruct IH as [[_ Hnil] | [_ [p Hone]]].
      * rewrite Hnil in Hlt. cbn in Hlt. lia.
      * rewrite Hone in *. cbn in Hlt.
        destruct i as [|i]; [reflexivity | lia].
Qed.

(** C6, as the code has it. While [isLoading] is true, [sendMessage]
    returns at once: nothing of the state changes and no request is issued.
    In the runs in which the page is only reset while no request is in
    flight, at most one request is in flight, and [isLoading] is true
    exactly while one is. *)
Theorem one_request_in_flight (w : World) :
  (isLoading (appState w) = true -> sendMessage w = w) /\
  (steady w ->
   (List.length (inflight w) <= 1)%nat /\
   (isLoading (appState w) = true <-> inflight w <> [])).
Proof.
  split; [apply sendMessage_guard|].
  intros Hw.
  destruct (steady_invariant w Hw) as [[Hload ->] | [Hload [p ->]]];
    rewrite Hload; cbn [List.length]; split; try lia; split;
    congruence || discriminate.
Qed.

Lemma reachable_run (w : World) (events : list Event) :
  reachable w -> reachable (run w events).
Proof.
  revert w. induction events as [|e events IH]; intros w Hw; [exact Hw|].
  cbn [run fold_left]. apply IH. now constructor.
Qed.

End InFlight.

Lemma one_request_in_flight_witness :
  isLoading (appState timesheet_waiting) = true /\
  sendMessage (engine := v8) timesheet_waiting = timesheet_waiting /\
  (List.length (inflight timesheet_waiting) <= 1)%nat.
Proof.
  split; [reflexivity|].
  destruct (one_request_in_flight (engine := v8) timesheet_waiting)
    as [Hguard Hsteady].
  split; [apply Hguard; reflexivity|].
  apply Hsteady.
  apply (steady_step (engine := v8) _ SendMessage); [|discriminate].
  apply (steady_step (engine := v8) _ (EditMessage (lit "hi")));
    [|discriminate].
  apply (steady_step (engine := v8) _ (SelectService timesheet));
    [|discriminate].
  apply (steady_step (engine := v8) _ (EditEmail (lit "a@b.co")));
    [|discriminate].
  apply steady_loaded.
Defined.

(** C6 as stated fails: when the page is reset while a request is in flight
    and a new session is started, the response that then arrives clears
    [isLoading] although the request of the new session is still in flight,
    and the next [sendMessage] issues another one beside it. *)
Lemma reset_lets_requests_overlap :
  reachable (engine := v8) (run (engine := v8) (loaded full_document)
                              overlapping_run) /\
  isLoading
    (appState (run (engine := v8) (loaded full_document)
                 (firstn 10 overlapping_run)))
  = false /\
  map pending_message
    (inflight (run (engine := v8) (loaded full_document)
                 (firstn 10 overlapping_run)))
  = [lit "b"] /\
  map pending_message
    (inflight (run (engine := v8) (loaded full_document) overlapping_run))
  = [lit "b"; lit "c"] /\
  (List.length
     (inflight (run (engine := v8) (loaded full_document) overlapping_run))
   = 2)%nat.
Proof.
  split; [|repeat split; reflexivity].
  apply reachable_run. apply reachable_loaded.
Qed.

(** ** The shape of the history *)

Lemma paired_bounded (n : nat) (h : list Turn) (u a : Turn) :
  (List.length h <= n)%nat ->
  paired h = true -> is_user u = true -> is_assistant a = true ->
  paired (h ++ [u; a]) = true /\ Nat.even (List.length h) = true.
Proof.
  revert h. induction n as [|n IH]; intros h Hlen Hh Hu Ha.
  - destruct h as [|x h]; [|cbn in Hlen; lia].
    cbn. now rewrite Hu, Ha.
  - destruct h as [|x [|y rest]]; [cbn; now rewrite Hu, Ha | discriminate |].
    cbn [paired] in Hh.
    apply andb_true_iff in Hh as [Hxy Hrest].
    destruct (IH rest) as [Happ Heven]; auto; [cbn in Hlen; lia|].
    split.
    + cbn [app paired]. now rewrite Hxy, Happ.
    + exact Heven.
Qed.

Lemma paired_snoc (h : list Turn) (msg : value) (response : value) :
  paired h = true ->
  paired (h ++ [mkTurn user msg; mkTurn assistant response]) = true.
Proof.
  intros Hh. now apply (paired_bounded (List.length h) h).
Qed.

Lemma paired_even (h : list Turn) :
  paired h = true -> Nat.even (List.length h) = true.
Proof.
  intros Hh.
  now apply (paired_bounded (List.length h) h (mkTurn user VNull)
               (mkTurn assistant VNull)).
Qed.

Section History.
Context {engine : Engine}.

Lemma selectService_history (serviceType : jsstring) (w : World) :
  validateEmail (elements w) = true ->
  conversationHistory (appState (selectService serviceType w)) = [].
Proof.
  intros Hvalid. unfold selectService.
  rewrite Hvalid, (validateEmail_nonempty _ Hvalid). cbn [negb orb].
  destruct (table_lookup SERVICES serviceType); reflexivity.
Qed.

Lemma selectService_history_cases (serviceType : jsstring) (w : World) :
  conversationHistory (appState (selectService serviceType w))
  = conversationHistory (appState w) \/
  conversationHistory (appState (selectService serviceType w)) = [].
Proof.
  unfold selectService.
  destruct (negb (validateEmail (elements w))
            || negb (nonempty (option_map trim (emailInput (elements w)))));
    [now left|].
  right. destruct (table_lookup SERVICES serviceType); reflexivity.
Qed.

Lemma sendMessage_history (w : World) :
  conversationHistory (appState (sendMessage w))
  = conversationHistory (appState w).
Proof.
  unfold sendMessage.
  destruct (negb (nonempty (option_map trim (messageInput (elements w))))
            || isLoading (appState w) || negb (initialized (appState w)));
    [reflexivity|].
  destruct (addMessage user _ _) as [els2|error]; [|reflexivity].
  destruct (callAPI_start _ _) as [p|error]; [reflexivity|].
  unfold sendMessage_resume. reflexivity.
Qed.

Lemma settle_history (i : nat) (o : FetchOutcome) (p : Pending) (w : World) :
  nth_error (inflight w) i = Some p ->
  conversationHistory (appState (settle i o w)) =
    match callAPI_resume p o (appState w) with
    | Normal response =>
        match addMessage assistant response (elements w) with
        | Normal _ =>
            conversationHistory (appState w)
            ++ [ mkTurn user (VStr (pending_message p));
                 mkTurn assistant response ]
        | Throw _ => conversationHistory (appState w)
        end
    | Throw _ => conversationHistory (appState w)
    end.
Proof.
  intros Hnth. unfold settle. rewrite Hnth. unfold sendMessage_resume.
  cbn [appState elements].
  destruct (callAPI_resume p o (appState w)) as [response|error];
    [|reflexivity].
  destruct (addMessage assistant response (elements w)); reflexivity.
Qed.

Lemma settle_history_idle (i : nat) (o : FetchOutcome) (w : World) :
  nth_error (inflight w) i = None -> settle i o w = w.
Proof. intros Hnth. unfold settle. now rewrite Hnth. Qed.

Lemma step_paired (w : World) (e : Event) :
  paired (conversationHistory (appState w)) = true ->
  paired (conversationHistory (appState (step w e))) = true.
Proof.
  intros Hw. destruct e as [v | v | serviceType | | | i o]; cbn [step].
  - exact Hw.
  - exact Hw.
  - destruct (selectService_history_cases serviceType w) as [-> | ->];
      [exact Hw | reflexivity].
  - now rewrite sendMessage_history.
  - reflexivity.
  - destruct (nth_error (inflight w) i) as [p|] eqn:Hnth.
    + rewrite (settle_history i o p w Hnth).
      destruct (callAPI_resume p o (appState w)) as [response|error];
        [|exact Hw].
      destruct (addMessage assistant response (elements w)); [|exact Hw].
      now apply paired_snoc.
    + now rewrite settle_history_idle.
Qed.

(** C10. In every state that the page can reach, [conversationHistory] is a
    sequence of exchanges, a user entry followed by an assistant entry, and
    so has even length. [resetToWelcome] empties it, and so does
    [selectService] when the email input is accepted; [sendMessage] leaves
    it as it is while the request is issued; when the request settles, the
    user's entry and the assistant's entry are added together if [callAPI]
    returned a response and it could be rendered, and nothing is added if
    the exchange failed. *)
Theorem conversationHistory_paired (w : World) :
  (reachable w ->
   paired (conversationHistory (appState w)) = true /\
   Nat.even (List.length (conversationHistory (appState w))) = true) /\
  conversationHistory (appState (resetToWelcome w)) = [] /\
  (forall serviceType,
      validateEmail (elements w) = true ->
      conversationHistory (appState (selectService serviceType w)) = []) /\
  conversationHistory (appState (sendMessage w))
  = conversationHistory (appState w) /\
  (forall i o,
      nth_error (inflight w) i = None ->
      conversationHistory (appState (settle i o w))
      = conversationHistory (appState w)) /\
  (forall i o p,
      nth_error (inflight w) i = Some p ->
      conversationHistory (appState (settle i o w)) =
        match callAPI_resume p o (appState w) with
        | Normal response =>
            match addMessage assistant response (elements w) with
            | Normal _ =>
                conversationHistory (appState w)
                ++ [ mkTurn user (VStr (pending_message p));
                     mkTurn assistant response ]
            | Throw _ => conversationHistory (appState w)
            end
        | Throw _ => conversationHistory (appState w)
        end).
Proof.
  split; [|split; [|split; [|split; [|split]]]].
  - intros Hw.
    assert (Hp : paired (conversationHistory (appState w)) = true).
    { induction Hw as [document | w e Hw IH]; [reflexivity|].
      now apply step_paired. }
    split; [exact Hp | now apply paired_even].
  - reflexivity.
  - intros serviceType. apply selectService_history.
  - apply sendMessage_history.
  - intros i o Hnth. now rewrite settle_history_idle.
  - intros i o p. apply settle_history.
Qed.

End History.

Lemma conversationHistory_paired_witness :
  reachable (engine := v8) timesheet_session /\
  conversationHistory (appState timesheet_session)
  = [mkTurn user (VStr (lit "hi")); mkTurn assistant (VStr (lit "ok"))] /\
  paired (conversationHistory (appState timesheet_session)) = true.
Proof.
  assert (Hreach : reachable (engine := v8) timesheet_session).
  { apply reachable_run. apply reachable_loaded. }
  split; [exact Hreach|]. split; [reflexivity|].
  apply (proj1 (conversationHistory_paired (engine := v8) timesheet_session)).
  exact Hreach.
Defined.

(** * Further properties of the code *)

(** ** Blank messages and repeated submission *)

Lemma trim_start_nil (s : jsstring) :
  trim_start s = [] <-> forallb is_space s = true.
Proof.
  induction s as [|c s IH]; cbn [trim_start forallb]; [tauto|].
  destruct (is_space c); cbn [andb]; [exact IH|].
  split; discriminate.
Qed.

Lemma forallb_rev {A : Type} (f : A -> bool) (l : list A) :
  forallb f (rev l) = forallb f l.
Proof.
  induction l as [|x l IH]; [reflexivity|].
  cbn [rev forallb]. rewrite forallb_app, IH. cbn [forallb].
  now rewrite andb_true_r, andb_comm.
Qed.

Lemma trim_start_suffix (s : jsstring) :
  exists spaces, s = spaces ++ trim_start s /\ forallb is_space spaces = true.
Proof.
  induction s as [|c s [spaces [Hs Hsp]]]; [now exists []|].
  cbn [trim_start]. destruct (is_space c) eqn:Ec.
  - exists (c :: spaces). cbn [app forallb]. rewrite Ec, Hsp.
    split; [now f_equal | reflexivity].
  - now exists [].
Qed.

Lemma trim_nil (s : jsstring) : trim s = [] <-> forallb is_space s = true.
Proof.
  unfold trim, trim_end. split.
  - intros H.
    assert (Hr : trim_start (rev (trim_start s)) = []).
    { destruct (trim_start (rev (trim_start s))); [reflexivity|].
      cbn [rev] in H. now apply app_eq_nil in H as [_ H]. }
    apply trim_start_nil in Hr. rewrite forallb_rev in Hr.
    destruct (trim_start_suffix s) as [spaces [Hs Hsp]].
    rewrite Hs, forallb_app, Hsp, Hr. reflexivity.
  - intros H. apply trim_start_nil in H. now rewrite H.
Qed.


Lemma nonempty_trim (field : option jsstring) :
  nonempty (option_map trim field) =
  negb match field with
       | Some raw => forallb is_space raw
       | None => true
       end.
Proof.
  destruct field as [raw|]; [|reflexivity]. cbn [option_map nonempty].
  destruct (trim raw) as [|c rest] eqn:E.
  - apply trim_nil in E. now rewrite E.
  - destruct (forallb is_space raw) eqn:Hb; [|reflexivity].
    apply trim_nil in Hb. congruence.
Qed.

Section Guards.
Context {engine : Engine}.

Lemma addMessage_inputs (r : Role) (c : value) (els els' : Elements) :
  addMessage r c els = Normal els' ->
  emailInput els' = emailInput els /\
  messageInput els' = messageInput els /\
  errorMessage els' = errorMessage els.
Proof.
  unfold addMessage.
  destruct (messagesContainer els) as [shown|]; [|now intros [= <-]].
  destruct (negb (truthy c)); [now intros [= <-]|].
  destruct (ToString c) as [text|e]; cbn [bind]; [|discriminate].
  now intros [= <-].
Qed.

Lemma sendMessage_catch_inputs (error : Error) (els : Elements) :
  emailInput (sendMessage_catch error els) = emailInput els /\
  messageInput (sendMessage_catch error els) = messageInput els.
Proof.
  unfold sendMessage_catch, or_unchanged.
  assert (Hshow : forall m, emailInput (showError m els) = emailInput els /\
                            messageInput (showError m els) = messageInput els).
  { intros m. unfold showError. now destruct (errorMessage els). }
  destruct (addMessage assistant (VStr apology) _) as [els'|e] eqn:E;
    [|apply Hshow].
  destruct (addMessage_inputs _ _ _ _ E) as [He [Hm _]].
  rewrite He, Hm. apply Hshow.
Qed.

Lemma sendMessage_resume_inputs (msg : jsstring) (result : completion value)
  (w : World) :
  emailInput (elements (sendMessage_resume msg result w))
  = emailInput (elements w) /\
  messageInput (elements (sendMessage_resume msg result w))
  = messageInput (elements w).
Proof.
  unfold sendMessage_resume.
  destruct result as [response|error];
    [|cbn [elements]; apply sendMessage_catch_inputs].
  destruct (addMessage assistant response (elements w)) as [els'|e] eqn:E;
    cbn [elements]; [|apply sendMessage_catch_inputs].
  destruct (addMessage_inputs _ _ _ _ E) as [He [Hm _]]. now split.
Qed.

(** When the guard of [sendMessage] lets the call through, the message
    input is empty afterwards. *)
Lemma sendMessage_clears_input (w : World) :
  nonempty (option_map trim (messageInput (elements w))) = true ->
  isLoading (appState w) = false ->
  initialized (appState w) = true ->
  messageInput (elements (sendMessage w)) = Some [].
Proof.
  intros Hmsg Hload Hinit. unfold sendMessage.
  rewrite Hmsg, Hload, Hinit. cbn [negb orb].
  destruct (addMessage user _ _) as [els2|e] eqn:E; [|reflexivity].
  destruct (addMessage_inputs _ _ _ _ E) as [_ [Hm _]].
  destruct (callAPI_start _ _) as [p|error].
  - cbn [elements]. now rewrite Hm.
  - match goal with
    | |- context [sendMessage_resume ?m ?r ?x] =>
        destruct (sendMessage_resume_inputs m r x) as [_ Hres]
    end.
    rewrite Hres. cbn [elements]. now rewrite Hm.
Qed.

(** X2. [sendMessage] leaves the page exactly as it is if and only if the
    message input is missing or holds nothing but whitespace, or a request
    is loading, or no service has been selected. *)
Theorem sendMessage_noop_iff (w : World) :
  sendMessage w = w <->
  match messageInput (elements w) with
  | Some raw => forallb is_space raw
  | None => true
  end
  || isLoading (appState w) || negb (initialized (appState w)) = true.
Proof.
  rewrite <- (negb_involutive
                match messageInput (elements w) with
                | Some raw => forallb is_space raw
                | None => true
                end), <- nonempty_trim.
  split.
  - intros Hsame.
    destruct (nonempty (option_map trim (messageInput (elements w)))) eqn:Hmsg;
      [|reflexivity].
    destruct (isLoading (appState w)) eqn:Hload; [reflexivity|].
    destruct (initialized (appState w)) eqn:Hinit; [|reflexivity].
    exfalso.
    pose proof (sendMessage_clears_input w Hmsg Hload Hinit) as Hclear.
    rewrite Hsame in Hclear. rewrite Hclear in Hmsg. discriminate.
  - intros Hguard. unfold sendMessage. now rewrite Hguard.
Qed.

(** X3. Invoking [sendMessage] twice in a row is the same as invoking it
    once: the first call empties the input, or was already refused. *)
Theorem sendMessage_twice (w : World) :
  sendMessage (sendMessage w) = sendMessage w.
Proof.
  destruct (nonempty (option_map trim (messageInput (elements w)))) eqn:Hmsg;
    [destruct (isLoading (appState w)) eqn:Hload;
     [|destruct (initialized (appState w)) eqn:Hinit]|].
  - unfold sendMessage at 2. rewrite Hmsg, Hload. cbn [negb orb].
    unfold sendMessage. now rewrite Hmsg, Hload.
  - pose proof (sendMessage_clears_input w Hmsg Hload Hinit) as Hclear.
    unfold sendMessage at 1. now rewrite Hclear.
  - unfold sendMessage at 2. rewrite Hmsg, Hload, Hinit. cbn [negb orb].
    unfold sendMessage. now rewrite Hmsg, Hload, Hinit.
  - unfold sendMessage at 2. rewrite Hmsg. cbn [negb orb].
    unfold sendMessage. now rewrite Hmsg.
Qed.

End Guards.

(** ** Reset and selection, composed *)

Section Lifecycle.
Context {engine : Engine}.

(** X1. [resetToWelcome] done twice is [resetToWelcome] done once. After
    it [sendMessage] does nothing, and [selectService] is refused for want of
    an email, whatever the service: the state stays the unselected one and
    "Please enter a valid email address first." is reported. *)
Theorem resetToWelcome_then (serviceType : jsstring) (w : World) :
  resetToWelcome (resetToWelcome w) = resetToWelcome w /\
  sendMessage (resetToWelcome w) = resetToWelcome w /\
  appState (selectService serviceType (resetToWelcome w))
  = mkAppState None [] [] false false /\
  errorMessage (elements (selectService serviceType (resetToWelcome w)))
  = option_map (fun _ => lit "Please enter a valid email address first.")
      (errorMessage (elements w)).
Proof.
  destruct w as [app [ei mi mc em] fl].
  split; [|split; [|split]].
  - unfold resetToWelcome. cbn. now destruct ei, mi, mc.
  - unfold sendMessage, resetToWelcome. cbn. now destruct mi.
  - unfold selectService, resetToWelcome, validateEmail. cbn.
    now destruct ei.
  - unfold selectService, resetToWelcome, validateEmail, showError. cbn.
    destruct ei, em; reflexivity.
Qed.


Lemma validateEmail_emailInput (els els' : Elements) :
  emailInput els' = emailInput els -> validateEmail els' = validateEmail els.
Proof. intros H. unfold validateEmail. now rewrite H. Qed.

Lemma showError_twice (m : jsstring) (els : Elements) :
  showError m (showError m els) = showError m els.
Proof. destruct els as [ei mi mc [e|]]; reflexivity. Qed.

Lemma addMessage_undefined (r : Role) (els : Elements) :
  addMessage r VUndefined els = Normal els.
Proof. unfold addMessage. now destruct (messagesContainer els). Qed.

Lemma welcome_rendered (service : Service) (id : jsstring) (els : Elements) :
  table_lookup SERVICES id = Own service ->
  addMessage assistant (VStr (welcomeMessage service)) els
  = Normal (with_message assistant (welcomeMessage service) els).
Proof.
  intros Hown.
  destruct (SERVICES_own _ _ Hown) as [[_ ->] | [_ ->]];
    apply addMessage_string.
Qed.

(** What [selectService] leaves, case by case. *)
Lemma selectService_cases (serviceType : jsstring) (w : World) :
  let els := elements w in
  let email := option_map trim (emailInput els) in
  let app := mkAppState (Some serviceType) (string_of email) []
               (isLoading (appState w)) true in
  let els1 := set_messagesContainer (cleared (messagesContainer els)) els in
  selectService serviceType w =
    if negb (validateEmail els) || negb (nonempty email) then
      mkWorld (appState w)
        (showError (lit "Please enter a valid email address first.") els)
        (inflight w)
    else
      match table_lookup SERVICES serviceType with
      | Absent =>
          mkWorld app (showError (lit "Invalid service selected.") els)
            (inflight w)
      | Own service =>
          mkWorld app (with_message assistant (welcomeMessage service) els1)
            (inflight w)
      | Inherited => mkWorld app els1 (inflight w)
      end.
Proof.
  cbv zeta. unfold selectService.
  destruct (negb (validateEmail (elements w)) || _); [reflexivity|].
  destruct (table_lookup SERVICES serviceType) as [service| |] eqn:Hlook.
  - now rewrite (welcome_rendered service serviceType _ Hlook).
  - now rewrite addMessage_undefined.
  - reflexivity.
Qed.

Lemma selectService_emailInput (serviceType : jsstring) (w : World) :
  emailInput (elements (selectService serviceType w))
  = emailInput (elements w).
Proof.
  rewrite selectService_cases. cbv zeta.
  destruct (negb (validateEmail (elements w)) || _).
  - cbn [elements]. unfold showError. now destruct (errorMessage (elements w)).
  - destruct (table_lookup SERVICES serviceType); cbn [elements].
    + reflexivity.
    + reflexivity.
    + unfold showError. now destruct (errorMessage (elements w)).
Qed.

(** X4. The application state after [selectService] does not depend on a
    selection made just before it, and selecting the same service twice is
    the same as selecting it once. *)
Theorem selectService_last_wins (first second : jsstring) (w : World) :
  appState (selectService second (selectService first w))
  = appState (selectService second w) /\
  selectService second (selectService second w) = selectService second w.
Proof.
  split.
  - rewrite (selectService_cases second (selectService first w)).
    rewrite (selectService_cases second w). cbv zeta.
    rewrite (validateEmail_emailInput _ _ (selectService_emailInput first w)).
    rewrite (selectService_emailInput first w).
    destruct (selectService_frame first w) as [Hload _]. rewrite Hload.
    destruct (negb (validateEmail (elements w)) || _) eqn:Hguard.
    + cbn [appState]. rewrite (selectService_cases first w). cbv zeta.
      now rewrite Hguard.
    + now destruct (table_lookup SERVICES second).
  - rewrite (selectService_cases second (selectService second w)). cbv zeta.
    rewrite (validateEmail_emailInput _ _ (selectService_emailInput second w)).
    rewrite (selectService_emailInput second w).
    destruct (selectService_frame second w) as [Hload Hfl]. rewrite Hload, Hfl.
    rewrite (selectService_cases second w). cbv zeta.
    destruct (negb (validateEmail (elements w)) || _) eqn:Hguard.
    + cbn [appState elements]. now rewrite showError_twice.
    + destruct (table_lookup SERVICES second) as [service| |];
        cbn [appState elements inflight].
      * f_equal. destruct (elements w) as [ei mi [shown|] em]; reflexivity.
      * f_equal. destruct (elements w) as [ei mi [shown|] em]; reflexivity.
      * now rewrite showError_twice.
Qed.

End Lifecycle.

(** ** Failures of the transport *)

Section Transport.
Context {engine : Engine}.

(** X5. When the selected service is not a key of [API_CONFIG] itself,
    [sendMessage] issues no request: [callAPI] throws before [fetch], the
    user's message and the apology are rendered, the fixed text "Sorry, I
    encountered an error. Please try again." is reported, the history is
    untouched and [isLoading] is false again. *)
Theorem sendMessage_without_configuration (raw : jsstring) (w : World) :
  (forall cfg, table_lookup API_CONFIG (selected_key (appState w)) <> Own cfg) ->
  initialized (appState w) = true ->
  isLoading (appState w) = false ->
  messageInput (elements w) = Some raw ->
  trim raw <> [] ->
  let w' := sendMessage w in
  inflight w' = inflight w /\
  isLoading (appState w') = false /\
  conversationHistory (appState w') = conversationHistory (appState w) /\
  errorMessage (elements w') =
    option_map (fun _ => lit "Sorry, I encountered an error. Please try again.")
      (errorMessage (elements w)) /\
  messagesContainer (elements w') =
    option_map (fun shown => shown ++ [(user, trim raw); (assistant, apology)])
      (messagesContainer (elements w)).
Proof.
  intros Hcfg Hinit Hload Hin Htrim.
  destruct (trim raw) as [|c rest] eqn:Etrim; [contradiction|].
  cbv zeta. unfold sendMessage.
  rewrite Hin, Hinit, Hload. cbn [option_map]. rewrite Etrim.
  cbn [nonempty negb orb string_of]. rewrite addMessage_string.
  assert (Hthrow : exists error,
             callAPI_start (showTyping true (appState w)) (c :: rest)
             = Throw error /\
             errorMsg error
             = lit "Sorry, I encountered an error. Please try again.").
  { unfold callAPI_start.
    change (selected_key (showTyping true (appState w)))
      with (selected_key (appState w)).
    destruct (table_lookup API_CONFIG (selected_key (appState w)))
      as [cfg| |] eqn:Hlook.
    - now destruct (Hcfg cfg).
    - eexists. split; reflexivity.
    - eexists. split; reflexivity. }
  destruct Hthrow as [error [-> Hmsg]].
  rewrite sendMessage_resume_throw, Hmsg.
  cbn [appState elements inflight showTyping conversationHistory isLoading].
  unfold with_message, showError.
  destruct (elements w) as [ei mi mc em].
  cbn [set_messageInput set_messagesContainer set_errorMessage
       messagesContainer errorMessage emailInput messageInput].
  destruct em as [e|], mc as [shown|]; cbn; repeat split;
    now rewrite <- app_assoc.
Qed.

(** What [callAPI] throws is never the TypeError "Failed to fetch" itself. *)
Lemma callAPI_never_throws_failed_to_fetch (p : Pending) (o : FetchOutcome)
  (app : AppState) (error : Error) :
  callAPI_resume p o app = Throw error ->
  eqb (name error) (lit "TypeError")
  && eqb (message error) (lit "Failed to fetch") = false.
Proof.
  unfold callAPI_resume.
  destruct (callAPI_try p o app) as [response|fetchError]; [discriminate|].
  intros [= <-]. unfold callAPI_catch.
  destruct (eqb (name fetchError) (lit "TypeError")
            && eqb (message fetchError) (lit "Failed to fetch")) eqn:E;
    [reflexivity | exact E].
Qed.


Lemma status_in_range (status : N) (first count : nat) :
  (first <= N.to_nat status < first + count)%nat ->
  In status (map N.of_nat (seq first count)).
Proof.
  intros H. rewrite <- (N2Nat.id status). apply in_map. apply in_seq. exact H.
Qed.

Lemma server_error_text (status : N) :
  500 <= status < 1000 ->
  errorMsg (new_Error (lit "Server error (" ++ of_N status
                       ++ lit "). The API server may be down."))
  = lit "Sorry, I encountered an error. Please try again.".
Proof.
  intros H.
  assert (Hall : forallb
            (fun n => eqb (errorMsg
                             (new_Error (lit "Server error (" ++ of_N n
                                         ++ lit "). The API server may be down.")))
                        (lit "Sorry, I encountered an error. Please try again."))
            (map N.of_nat (seq 500 500)) = true) by (vm_compute; reflexivity).
  rewrite forallb_forall in Hall. apply jsstring_eqb_eq. apply Hall.
  apply status_in_range. lia.
Qed.

Lemma http_error_text (status : N) :
  status < 500 -> status <> 405 ->
  errorMsg (new_Error (lit "HTTP error! status: " ++ of_N status))
  = lit "Sorry, I encountered an error. Please try again.".
Proof.
  intros H Hne.
  assert (Hall : forallb
            (fun n => (n =? 405)
                      || eqb (errorMsg
                                (new_Error (lit "HTTP error! status: " ++ of_N n)))
                           (lit "Sorry, I encountered an error. Please try again."))
            (map N.of_nat (seq 0 500)) = true) by (vm_compute; reflexivity).
  rewrite forallb_forall in Hall.
  specialize (Hall status (status_in_range status 0 500 ltac:(lia))).
  apply orb_true_iff in Hall as [Heq | Heq].
  - apply N.eqb_eq in Heq. contradiction.
  - now apply jsstring_eqb_eq.
Qed.

(** X8. For a request of either service and a status below 1000 that is
    not [ok], [callAPI] throws, and the text that the catch block of
    [sendMessage] picks for it is the method-not-allowed text for 405 and the
    fixed "Sorry, I encountered an error. Please try again." for every other
    status, 404 and the 5xx included. *)
Theorem status_classification (p : Pending) (status : N)
  (body : completion value) (app : AppState) :
  pending_config p = timesheet_config \/ pending_config p = hr_policy_config ->
  status < 1000 ->
  response_ok status = false ->
  exists error,
    callAPI_resume p (FetchResponse status body) app = Throw error /\
    errorMsg error =
      if status =? 405
      then lit "Method not allowed - please check the API endpoint configuration."
      else lit "Sorry, I encountered an error. Please try again.".
Proof.
  intros Hcfg Hlt Hok. unfold callAPI_resume, callAPI_try. rewrite Hok.
  cbn [negb].
  destruct (status =? 405) eqn:E405.
  - destruct Hcfg as [-> | ->]; eexists; (split; [reflexivity|]);
      vm_compute; reflexivity.
  - apply N.eqb_neq in E405.
    destruct (status =? 404) eqn:E404.
    + destruct Hcfg as [-> | ->]; eexists; (split; [reflexivity|]);
        vm_compute; reflexivity.
    + destruct (500 <=? status) eqn:E500.
      * apply N.leb_le in E500. eexists. split; [reflexivity|].
        cbn [callAPI_catch new_Error name message].
        change (eqb (lit "Error") (lit "TypeError")) with false.
        cbn [andb]. apply server_error_text. lia.
      * apply N.leb_gt in E500. eexists. split; [reflexivity|].
        cbn [callAPI_catch new_Error name message].
        change (eqb (lit "Error") (lit "TypeError")) with false.
        cbn [andb]. now apply http_error_text.
Qed.

End Transport.

(** ** What holds in every state the page can reach *)

Section Invariants.
Context {engine : Engine}.

Lemma sendMessage_cases (w : World) :
  let msg := string_of (option_map trim (messageInput (elements w))) in
  let els2 := with_message user msg
                (set_messageInput (Some []) (elements w)) in
  let app1 := showTyping true (appState w) in
  sendMessage w =
    if negb (nonempty (option_map trim (messageInput (elements w))))
       || isLoading (appState w) || negb (initialized (appState w))
    then w
    else
      match callAPI_start app1 msg with
      | Normal p => mkWorld app1 els2 (inflight w ++ [p])
      | Throw error =>
          sendMessage_resume msg (Throw error)
            (mkWorld app1 els2 (inflight w))
      end.
Proof.
  cbv zeta. unfold sendMessage.
  destruct (option_map trim (messageInput (elements w))) as [[|c rest]|];
    cbn [nonempty negb orb]; try reflexivity.
  destruct (isLoading (appState w) || negb (initialized (appState w)));
    [reflexivity|].
  cbn [string_of]. now rewrite addMessage_string.
Qed.

(** The promise of a call of [sendMessage] is pending exactly when the call
    has put a request in flight; otherwise it is resolved with [undefined]
    by the time the call hands control back. It is never rejected. *)
Lemma sendMessage_promise_cases (w : World) :
  (sendMessage_promise w = None /\
   exists p, inflight (sendMessage w) = inflight w ++ [p]) \/
  (sendMessage_promise w = Some (Normal VUndefined) /\
   inflight (sendMessage w) = inflight w).
Proof.
  pose proof (sendMessage_cases w) as Hcases. cbv zeta in Hcases.
  rewrite Hcases. unfold sendMessage_promise.
  destruct (option_map trim (messageInput (elements w))) as [[|c rest]|];
    cbn [nonempty negb orb]; try (right; split; reflexivity).
  destruct (isLoading (appState w) || negb (initialized (appState w)));
    [right; split; reflexivity|].
  cbn [string_of]. rewrite addMessage_string.
  destruct (callAPI_start _ _) as [p|error].
  - left. split; [reflexivity|]. now exists p.
  - right. split; [reflexivity|].
    match goal with
    | |- context [sendMessage_resume ?m ?r ?x] =>
        now rewrite (proj2 (sendMessage_resume_frame m r x))
    end.
Qed.

Lemma sendMessage_resume_session (msg : jsstring) (result : completion value)
  (w : World) :
  same_session (appState (sendMessage_resume msg result w)) (appState w).
Proof.
  unfold sendMessage_resume, same_session.
  destruct result as [response|error]; [|now cbn].
  destruct (addMessage assistant response (elements w)); now cbn.
Qed.

Lemma callAPI_start_wire (app : AppState) (msg : jsstring) (p : Pending) :
  callAPI_start app msg = Normal p ->
  pending_message p = msg /\
  ((pending_config p = timesheet_config /\
    pending_payload p = TimesheetPayload (userEmail app) msg) \/
   (pending_config p = hr_policy_config /\
    pending_payload p = QueryPayload msg)).
Proof.
  unfold callAPI_start, selected, selected_key.
  destruct (selectedService app) as [id|]; [|discriminate].
  destruct (table_lookup API_CONFIG id) as [cfg| |] eqn:Hlook;
    try discriminate.
  destruct (API_CONFIG_own _ _ Hlook) as [[-> ->] | [-> ->]].
  - change (eqb timesheet timesheet) with true. cbn [bind].
    intros [= <-]. split; [reflexivity|]. left. now split.
  - change (eqb hr_policy timesheet) with false.
    change (eqb hr_policy hr_policy) with true. cbn [bind].
    intros [= <-]. split; [reflexivity|]. right. now split.
Qed.

Lemma Forall_remove_nth {A : Type} (P : A -> Prop) (i : nat) (l : list A) :
  Forall P l -> Forall P (remove_nth i l).
Proof.
  revert i. induction l as [|x l IH]; intros i H; [now destruct i|].
  inversion H; subst. destruct i as [|i]; cbn [remove_nth]; auto.
Qed.

Lemma session_consistent_same (a b : AppState) :
  same_session a b -> session_consistent b -> session_consistent a.
Proof.
  unfold same_session, session_consistent.
  intros [-> [-> ->]]. exact (fun H => H).
Qed.

Lemma step_invariant (w : World) (e : Event) :
  session_consistent (appState w) /\ Forall wire_contract (inflight w) ->
  session_consistent (appState (step w e)) /\
  Forall wire_contract (inflight (step w e)).
Proof.
  intros [Hs Hf]. destruct e as [v | v | serviceType | | | i o]; cbn [step].
  - now split.
  - now split.
  - destruct (selectService_frame serviceType w) as [_ ->].
    split; [|exact Hf].
    unfold selectService.
    destruct (negb (validateEmail (elements w)) || _) eqn:Hguard; [exact Hs|].
    apply orb_false_iff in Hguard as [Hvalid _].
    apply negb_false_iff in Hvalid.
    apply validateEmail_shape in Hvalid as [raw [Hin Hshape]].
    assert (Happ : session_consistent
              (mkAppState (Some serviceType)
                 (string_of (option_map trim (emailInput (elements w)))) []
                 (isLoading (appState w)) true)).
    { unfold session_consistent. cbn. rewrite Hin. cbn.
      split; [now exists serviceType | exact Hshape]. }
    now destruct (table_lookup SERVICES serviceType).
  - rewrite sendMessage_cases. cbv zeta.
    destruct (negb (nonempty (option_map trim (messageInput (elements w)))))
      eqn:Hmsg; cbn [orb]; [now split|].
    destruct (isLoading (appState w)); cbn [orb]; [now split|].
    destruct (initialized (appState w)) eqn:Hinit; cbn [negb]; [|now split].
    apply negb_false_iff in Hmsg.
    destruct (callAPI_start _ _) as [p|error] eqn:Hstart.
    + cbn [appState inflight]. split.
      * apply (session_consistent_same _ (appState w)); [|exact Hs].
        now unfold same_session.
      * apply Forall_app. split; [exact Hf|]. constructor; [|constructor].
        destruct (callAPI_start_wire _ _ _ Hstart) as [Hm Hwire].
        unfold wire_contract. rewrite Hm. split.
        -- destruct (option_map trim (messageInput (elements w)))
             as [[|c rest]|]; discriminate.
        -- destruct Hwire as [[Hc Hp] | [Hc Hp]]; [left | right];
             (split; [exact Hc|]); [|exact Hp].
           exists (userEmail (appState w)). split; [exact Hp|].
           unfold session_consistent in Hs. rewrite Hinit in Hs. apply Hs.
    + match goal with
      | |- context [sendMessage_resume ?m ?r ?x] =>
          destruct (sendMessage_resume_frame m r x) as [_ Hfl];
          pose proof (sendMessage_resume_session m r x) as Hsame
      end.
      rewrite Hfl. split; [|exact Hf].
      apply (session_consistent_same _ (appState w)); [|exact Hs].
      destruct Hsame as [H1 [H2 H3]]. unfold same_session.
      now rewrite H1, H2, H3.
  - split; [now cbn | exact Hf].
  - unfold settle. destruct (nth_error (inflight w) i) as [p|]; [|now split].
    match goal with
    | |- context [sendMessage_resume ?m ?r ?x] =>
        destruct (sendMessage_resume_frame m r x) as [_ Hfl];
        pose proof (sendMessage_resume_session m r x) as Hsame
    end.
    rewrite Hfl. cbn [inflight]. split; [|now apply Forall_remove_nth].
    now apply (session_consistent_same _ (appState w)).
Qed.




(** The email a request carries is the one of the session it was issued
    in, which need not be the session it is answered in: when the service
    is selected again under another email while the request is in flight,
    the request still carries the first. *)
Lemma request_keeps_email_of_issue :
  reachable (engine := v8) reselected_waiting /\
  inflight reselected_waiting
  = [mkPending (lit "hi") timesheet_config
       (TimesheetPayload (lit "a@b.co") (lit "hi"))] /\
  userEmail (appState reselected_waiting) = lit "c@d.co".
Proof.
  split; [|split; reflexivity].
  apply reachable_run. apply reachable_loaded.
Qed.

(** X7. In every state the page can reach, either the state is
    initialized, a service is selected and [userEmail] has the shape of an
    email, or it is not initialized, no service is selected and [userEmail]
    is empty. *)
Theorem session_state_consistent (w : World) :
  reachable w -> session_consistent (appState w).
Proof.
  intros Hw.
  apply (proj1 (B := Forall wire_contract (inflight w))).
  induction Hw as [document | w e Hw IH].
  - split; [now cbn | constructor].
  - now apply step_invariant.
Qed.

End Invariants.

(** ** The page at rest, and responses that arrive late *)

Section Late.
Context {engine : Engine}.

Lemma sendMessage_initialized (w : World) :
  initialized (appState (sendMessage w)) = initialized (appState w).
Proof.
  unfold sendMessage.
  destruct (negb _ || _ || _); [reflexivity|].
  destruct (addMessage user _ _); [|reflexivity].
  destruct (callAPI_start _ _); [reflexivity|].
  unfold sendMessage_resume. reflexivity.
Qed.

Lemma settle_initialized (i : nat) (o : FetchOutcome) (w : World) :
  initialized (appState (settle i o w)) = initialized (appState w).
Proof.
  unfold settle. destruct (nth_error (inflight w) i) as [p|]; [|reflexivity].
  unfold sendMessage_resume. cbn [appState elements].
  destruct (callAPI_resume p o (appState w)) as [response|error];
    [|reflexivity].
  destruct (addMessage assistant response (elements w)); reflexivity.
Qed.

Lemma selectService_rejected_or_initialized (serviceType : jsstring)
  (w : World) :
  appState (selectService serviceType w) = appState w \/
  initialized (appState (selectService serviceType w)) = true.
Proof.
  unfold selectService.
  destruct (negb (validateEmail (elements w)) || _); [now left|].
  right. now destruct (table_lookup SERVICES serviceType).
Qed.

Lemma steady_unselected (w : World) :
  steady w ->
  initialized (appState w) = false ->
  conversationHistory (appState w) = [] /\ inflight w = [].
Proof.
  induction 1 as [document | w Hw IH Hidle | w e Hw IH He]; intros Hinit.
  - now split.
  - now split.
  - destruct e as [v | v | serviceType | | | i o]; cbn [step] in *.
    + now apply IH.
    + now apply IH.
    + destruct (selectService_frame serviceType w) as [_ ->].
      destruct (selectService_rejected_or_initialized serviceType w)
        as [Hsame | Htrue]; [|congruence].
      rewrite Hsame in *. now apply IH.
    + rewrite sendMessage_initialized in Hinit.
      assert (Hnoop : sendMessage w = w).
      { unfold sendMessage. rewrite Hinit. cbn [negb].
        now rewrite orb_true_r. }
      rewrite Hnoop. now apply IH.
    + contradiction.
    + rewrite settle_initialized in Hinit.
      destruct (IH Hinit) as [Hh Hfl].
      unfold settle. rewrite Hfl. now destruct i.
Qed.

Lemma sendMessage_resume_text (msg text : jsstring) (w : World) :
  text <> [] ->
  sendMessage_resume msg (Normal (VStr text)) w =
  mkWorld (showTyping false (push_exchange msg (VStr text) (appState w)))
    (with_message assistant text (elements w))
    (inflight w).
Proof.
  destruct text as [|c rest]; [contradiction|]. intros _.
  apply sendMessage_resume_string.
Qed.

(** X11. A successful response that arrives after [resetToWelcome] is
    still taken in: no service is selected, so whatever the body the
    fallback text is the answer; it is rendered, and the exchange is pushed
    into the history of the page that is not initialized. *)
Theorem response_after_reset (i : nat) (p : Pending) (status : N)
  (data : value) (w : World) :
  nth_error (inflight w) i = Some p ->
  response_ok status = true ->
  let w' := settle i (FetchResponse status (Normal data)) (resetToWelcome w) in
  appState w' =
    mkAppState None []
      [ mkTurn user (VStr (pending_message p));
        mkTurn assistant (VStr fallback) ]
      false false /\
  messagesContainer (elements w') =
    option_map (fun _ => [(assistant, fallback)])
      (messagesContainer (elements w)) /\
  inflight w' = remove_nth i (inflight w).
Proof.
  intros Hnth Hok. cbv zeta. unfold settle.
  cbn [resetToWelcome inflight appState elements]. rewrite Hnth.
  unfold callAPI_resume, callAPI_try. rewrite Hok. cbn [negb bind].
  unfold read_response, selected. cbn [selectedService].
  rewrite sendMessage_resume_text by discriminate.
  cbn [appState inflight elements]. split; [reflexivity|]. split; [|reflexivity].
  unfold with_message. cbn [messagesContainer set_messagesContainer].
  now destruct (messagesContainer (elements w)).
Qed.

End Late.

(** ** Reading a response *)

Section Responses.
Context {engine : Engine}.

Lemma or_else_fallback (v : value) : truthy (or_else v (VStr fallback)) = true.
Proof. unfold or_else. destruct (truthy v) eqn:E; [exact E | reflexivity]. Qed.

(** X14. What [callAPI] returns for a successful response is never
    falsy: not [undefined], [null], [false], zero or the empty string. *)
Theorem read_response_truthy (app : AppState) (data response : value) :
  read_response app data = Normal response -> truthy response = true.
Proof.
  unfold read_response.
  destruct (selected app timesheet).
  - destruct (get data (lit "response")) as [r|]; cbn [bind]; [|discriminate].
    destruct (get data (lit "message")) as [m|]; cbn [bind]; [|discriminate].
    intros [= <-]. apply or_else_fallback.
  - destruct (selected app hr_policy); [|now intros [= <-]].
    destruct (get data (lit "answer")) as [a|]; cbn [bind]; [|discriminate].
    destruct (get data (lit "response")) as [r|]; cbn [bind]; [|discriminate].
    destruct (get data (lit "message")) as [m|]; cbn [bind]; [|discriminate].
    destruct (get data (lit "sources")) as [src|]; cbn [bind]; [|discriminate].
    match goal with
    | |- bind ?c _ = _ -> _ => destruct c as [answer'|]; cbn [bind];
                               [|discriminate]
    end.
    intros [= <-]. apply or_else_fallback.
Qed.

Lemma get_member (props : list (jsstring * value)) (key : jsstring) :
  get (VObj props) key =
  Normal match own_property props key with
         | Some x => x
         | None => VUndefined
         end.
Proof. cbn [get]. now destruct (own_property props key). Qed.

(** X16. For the timesheet service and a body that is an object,
    [callAPI] returns the member [response] if it is truthy, else the member
    [message] if it is truthy, else the fallback text; a member that is
    absent counts as [undefined]. *)
Theorem timesheet_response_precedence (app : AppState)
  (props : list (jsstring * value)) :
  selectedService app = Some timesheet ->
  let member key := match own_property props (lit key) with
                    | Some x => x
                    | None => VUndefined
                    end in
  read_response app (VObj props) =
  Normal (if truthy (member "response"%string) then member "response"%string
          else if truthy (member "message"%string) then member "message"%string
          else VStr fallback).
Proof.
  intros Hsel. cbv zeta. unfold read_response, selected. rewrite Hsel.
  change (eqb timesheet timesheet) with true. cbv iota.
  rewrite !get_member. cbn [bind]. unfold or_else.
  destruct (truthy match own_property props (lit "response") with
                   | Some x => x | None => VUndefined end) eqn:Hr.
  - now rewrite Hr.
  - destruct (truthy match own_property props (lit "message") with
                     | Some x => x | None => VUndefined end) eqn:Hm;
      now rewrite ?Hm.
Qed.

(** X17. For the hr-policy service and a body whose [answer] is a string
    that is not empty and whose [sources] is an array of strings, [callAPI]
    returns the answer alone when the array is empty, and otherwise the
    answer, two newlines, "Sources: " and the sources joined by ", ". *)
Theorem hr_policy_answer_with_sources (app : AppState)
  (props : list (jsstring * value)) (answer : jsstring)
  (sources : list jsstring) :
  selectedService app = Some hr_policy ->
  own_property props (lit "answer") = Some (VStr answer) ->
  answer <> [] ->
  own_property props (lit "sources") = Some (VArr (map VStr sources)) ->
  read_response app (VObj props) =
  Normal (VStr match sources with
               | [] => answer
               | _ :: _ => answer ++ [10; 10] ++ lit "Sources: "
                           ++ join (lit ", ") sources
               end).
Proof.
  intros Hsel Hanswer Hne Hsources.
  unfold read_response, selected. rewrite Hsel.
  change (eqb hr_policy timesheet) with false.
  change (eqb hr_policy hr_policy) with true. cbv iota.
  rewrite !get_member, Hanswer, Hsources. cbn [bind].
  destruct answer as [|c rest]; [contradiction|].
  unfold or_else at 2 3. cbn [truthy is_nil negb].
  destruct sources as [|first others].
  - reflexivity.
  - cbn [map truthy length_positive is_nil negb bind call_join].
    change (VStr first :: map VStr others) with (map VStr (first :: others)).
    rewrite Array_join_strings. reflexivity.
Qed.

(** X23. For the hr-policy service and a body that is an object whose
    [sources] is not an array and yet has a length above zero, that is, a
    string that is not empty or an object whose member [length] compares
    above zero, [callAPI] returns no answer: [data.sources.join] is not a
    function, and the TypeError of calling it is thrown in the try block,
    whatever the other members of the body are. *)
Theorem sources_without_join (app : AppState)
  (props : list (jsstring * value)) (sources : value) :
  selectedService app = Some hr_policy ->
  own_property props (lit "sources") = Some sources ->
  (forall items, sources <> VArr items) ->
  length_positive sources = Normal true ->
  read_response app (VObj props) = Throw (TypeError not_a_function_message).
Proof.
  intros Hsel Hsources Hshape Hlength.
  unfold read_response, selected. rewrite Hsel.
  change (eqb hr_policy timesheet) with false.
  change (eqb hr_policy hr_policy) with true. cbv iota.
  rewrite !get_member, Hsources. cbn [bind].
  assert (Htruthy : truthy sources = true).
  { destruct sources as [| |b|n|s|items|members]; try discriminate.
    - cbn [length_positive] in Hlength. now injection Hlength.
    - reflexivity.
    - reflexivity. }
  rewrite Htruthy, Hlength. cbn [bind].
  destruct sources as [| |b|n|s|items|members]; try reflexivity.
  now destruct (Hshape items).
Qed.

End Responses.

(** ** Accepted emails, and the texts of errors *)

Lemma count_at_plain (s : jsstring) :
  Forall (fun c => space_or_at c = false) s ->
  count_occ N.eq_dec s 64 = 0%nat /\ forallb is_space s = is_nil s /\
  Forall (fun c => is_space c = false) s.
Proof.
  induction 1 as [|c s Hc Hs [IH1 [IH2 IH3]]]; [now repeat split|].
  unfold space_or_at in Hc. apply orb_false_iff in Hc as [Hsp Hat].
  apply N.eqb_neq in Hat. repeat split.
  - cbn [count_occ]. destruct (N.eq_dec c 64); [contradiction | exact IH1].
  - cbn [forallb is_nil]. now rewrite Hsp.
  - now constructor.
Qed.

(** X13. What [validateEmail] accepts has, once trimmed, exactly one "@",
    no whitespace, and at least five code units. *)
Theorem validateEmail_accepts_only (els : Elements) :
  validateEmail els = true ->
  exists raw,
    emailInput els = Some raw /\
    count_occ N.eq_dec (trim raw) 64 = 1%nat /\
    Forall (fun c => is_space c = false) (trim raw) /\
    (5 <= List.length (trim raw))%nat.
Proof.
  intros Hvalid.
  apply validateEmail_shape in Hvalid
    as [raw [Hin [local [domain [tld [Heq [Hl [Hd [Ht Hall]]]]]]]]].
  exists raw. split; [exact Hin|]. rewrite Heq.
  apply Forall_app in Hall as [Hl2 Hall].
  apply Forall_app in Hall as [Hd2 Ht2].
  destruct (count_at_plain _ Hl2) as [Cl [_ Sl]].
  destruct (count_at_plain _ Hd2) as [Cd [_ Sd]].
  destruct (count_at_plain _ Ht2) as [Ct [_ St]].
  repeat split.
  - rewrite !count_occ_app, Cl, Cd, Ct. reflexivity.
  - repeat (apply Forall_app; split); auto; now repeat constructor.
  - rewrite !length_app. cbn [List.length].
    destruct local, domain, tld; try contradiction; cbn [List.length]; lia.
Qed.

Section NoLeak.
Context {engine : Engine}.

Lemma showError_fixed (text : jsstring) (els : Elements) :
  In text error_texts ->
  fixed_or_kept (errorMessage els) (errorMessage (showError text els)).
Proof.
  intros Hin. unfold showError.
  destruct (errorMessage els) as [old|] eqn:E.
  - right. exists text. now split.
  - left. exact E.
Qed.

Lemma errorMsg_fixed (error : Error) : In (errorMsg error) error_texts.
Proof.
  unfold errorMsg, error_texts.
  destruct (includes (message error) (lit "CORS")
            || includes (message error) (lit "OPTIONS"));
    [cbn; tauto|].
  destruct (includes (message error) (lit "405")); [cbn; tauto|].
  destruct (includes (message error) (lit "Failed to fetch")); cbn; tauto.
Qed.

Lemma sendMessage_catch_fixed (error : Error) (els : Elements) :
  fixed_or_kept (errorMessage els) (errorMessage (sendMessage_catch error els)).
Proof.
  unfold sendMessage_catch, or_unchanged.
  destruct (addMessage assistant (VStr apology) _) as [els'|e] eqn:E.
  - destruct (addMessage_inputs _ _ _ _ E) as [_ [_ ->]].
    apply showError_fixed, errorMsg_fixed.
  - apply showError_fixed, errorMsg_fixed.
Qed.

Lemma sendMessage_resume_fixed (msg : jsstring) (result : completion value)
  (w : World) :
  fixed_or_kept (errorMessage (elements w))
    (errorMessage (elements (sendMessage_resume msg result w))).
Proof.
  unfold sendMessage_resume.
  destruct result as [response|error];
    [|cbn [elements]; apply sendMessage_catch_fixed].
  destruct (addMessage assistant response (elements w)) as [els'|e] eqn:E;
    cbn [elements]; [|apply sendMessage_catch_fixed].
  destruct (addMessage_inputs _ _ _ _ E) as [_ [_ ->]]. now left.
Qed.

Lemma step_fixed (w : World) (e : Event) :
  fixed_or_kept (errorMessage (elements w))
    (errorMessage (elements (step w e))).
Proof.
  destruct e as [v | v | serviceType | | | i o]; cbn [step].
  - now left.
  - now left.
  - rewrite selectService_cases. cbv zeta.
    destruct (negb (validateEmail (elements w)) || _).
    + cbn [elements]. apply showError_fixed. cbn. tauto.
    + destruct (table_lookup SERVICES serviceType); cbn [elements].
      * now left.
      * now left.
      * apply showError_fixed. cbn. tauto.
  - rewrite sendMessage_cases. cbv zeta.
    destruct (negb _ || _ || _); [now left|].
    destruct (callAPI_start _ _) as [p|error]; [now left|].
    match goal with
    | |- context [sendMessage_resume ?m ?r ?x] =>
        pose proof (sendMessage_resume_fixed m r x) as H
    end.
    exact H.
  - now left.
  - unfold settle. destruct (nth_error (inflight w) i) as [p|]; [|now left].
    match goal with
    | |- context [sendMessage_resume ?m ?r ?x] =>
        pose proof (sendMessage_resume_fixed m r x) as H
    end.
    exact H.
Qed.

(** X10. Whatever happens to the page, the text of the error message is
    the one the document came with or one of the six texts written in the
    script: nothing that a server or the engine supplied is shown there. *)
Theorem error_text_never_leaks (document : Elements) (events : list Event) :
  fixed_or_kept (errorMessage document)
    (errorMessage (elements (run (loaded document) events))).
Proof.
  assert (Hgen : forall w,
             fixed_or_kept (errorMessage document) (errorMessage (elements w)) ->
             fixed_or_kept (errorMessage document)
               (errorMessage (elements (run w events)))).
  { induction events as [|e events IH]; intros w Hw; [exact Hw|].
    cbn [run fold_left]. apply IH.
    destruct (step_fixed w e) as [-> | Hfixed]; [exact Hw | now right]. }
  apply Hgen. now left.
Qed.

End NoLeak.

(** ** The handlers of the page and the transitions of the controller *)

Lemma World_eta (w : World) :
  mkWorld (appState w) (elements w) (inflight w) = w.
Proof. now destruct w. Qed.

Section PageWorld.
Context {engine : Engine}.

Lemma Page_addMessage_world (r : Role) (c : value) (p : Page) :
  page_addMessage r c p =
  match addMessage r c (elements (world p)) with
  | Normal els =>
      Normal (mkPage
                (mkWorld (appState (world p)) els
                   (inflight (world p)))
                (view p))
  | Throw e => Throw e
  end.
Proof.
  unfold page_addMessage.
  now destruct (addMessage r c (elements (world p))).
Qed.

Lemma Page_sendMessage_catch_world (error : Error) (p : Page) :
  world (page_sendMessage_catch error p) =
  mkWorld (appState (world p))
    (sendMessage_catch error (elements (world p)))
    (inflight (world p)) /\
  view (page_sendMessage_catch error p) =
  set_errorTimeout true
    (set_errorToast
       (class_hidden false (errorToast (view p)))
       (view p)).
Proof.
  unfold page_sendMessage_catch, sendMessage_catch, page_or_unchanged,
    or_unchanged.
  rewrite Page_addMessage_world.
  cbn [page_showError originalShowError world view elements
       appState inflight].
  destruct (addMessage assistant (VStr apology) _); now split.
Qed.

Lemma Page_sendMessage_resume_world (msg : jsstring)
  (result : completion value) (p : Page) :
  world (page_sendMessage_resume msg result p)
  = sendMessage_resume msg result (world p).
Proof.
  unfold page_sendMessage_resume, sendMessage_resume.
  cbn [page_showTyping updateSendButtonState world].
  destruct result as [response|error].
  - rewrite Page_addMessage_world.
    destruct (addMessage assistant response (elements (world p))).
    + reflexivity.
    + now rewrite (proj1 (Page_sendMessage_catch_world e p)).
  - now rewrite (proj1 (Page_sendMessage_catch_world error p)).
Qed.

Lemma Page_selectService_world (serviceType : jsstring) (p : Page) :
  world (page_selectService serviceType p)
  = selectService serviceType (world p).
Proof.
  unfold page_selectService, selectService.
  destruct (negb (validateEmail (elements (world p))) || _);
    [reflexivity|].
  destruct (table_lookup SERVICES serviceType) as [service| |];
    try reflexivity;
    unfold page_or_unchanged, or_unchanged; rewrite Page_addMessage_world;
    cbn [world view elements appState inflight];
    match goal with
    | |- context [addMessage ?r ?c ?e] => destruct (addMessage r c e)
    end; reflexivity.
Qed.

Lemma Page_sendMessage_world (p : Page) :
  world (page_sendMessage p) = sendMessage (world p).
Proof.
  unfold page_sendMessage, sendMessage.
  destruct (negb _ || _ || _); [reflexivity|].
  rewrite Page_addMessage_world.
  cbn [updateSendButtonState world view elements appState
       inflight].
  destruct (addMessage user _ _) as [els2|e]; [|reflexivity].
  cbn [page_showTyping updateSendButtonState world view
       elements appState inflight].
  destruct (callAPI_start _ _) as [q|error]; [reflexivity|].
  now rewrite Page_sendMessage_resume_world.
Qed.

Lemma Page_settle_world (i : nat) (o : FetchOutcome) (p : Page) :
  world (page_settle i o p) = settle i o (world p).
Proof.
  unfold page_settle, settle.
  destruct (nth_error (inflight (world p)) i) as [q|]; [|reflexivity].
  now rewrite Page_sendMessage_resume_world.
Qed.

Lemma Page_resetToWelcome_world (p : Page) :
  world (page_resetToWelcome p) = resetToWelcome (world p).
Proof. reflexivity. Qed.

(** The handlers of the page act on the controller's state as the
    controller's own transitions do. *)
Lemma Page_act_world (p : Page) (a : Action) :
  world (act p a) =
  match event_of a p with
  | Some e => step (world p) e
  | None =>
      match a with
      | Offline =>
          mkWorld (appState (world p))
            (showError
               (lit "You are currently offline. Please check your internet connection.")
               (elements (world p)))
            (inflight (world p))
      | _ => world p
      end
  end.
Proof.
  destruct a as [v | v | service | | | | | | | | i o];
    cbn [act event_of step].
  - unfold edit.
    destruct (emailInput (elements (world p))) eqn:E; [reflexivity|].
    destruct (world p) as [app [ei mi mc em] fl]. cbn in *. now subst.
  - unfold edit.
    destruct (messageInput (elements (world p))) eqn:E; [reflexivity|].
    destruct (world p) as [app [ei mi mc em] fl]. cbn in *. now subst.
  - destruct (is_nil service); [reflexivity|]. apply Page_selectService_world.
  - apply Page_sendMessage_world.
  - reflexivity.
  - destruct (initialized (appState (world p))); reflexivity.
  - reflexivity.
  - now destruct (errorTimeout (view p)).
  - reflexivity.
  - reflexivity.
  - apply Page_settle_world.
Qed.

End PageWorld.

(** ** The send button and the typing indicator *)

Ltac page_simpl :=
  cbn [world view emailError serviceCards sendButton
       typingIndicator errorToast welcomeView chatView
       errorTimeout set_emailError set_serviceCards
       set_sendButton set_typingIndicator set_errorToast
       set_views set_errorTimeout hideError
       originalShowError page_showError validateEmailInput
       updateSendButtonState page_showTyping page_push_exchange
       with_inflight class_hidden
       appState elements inflight selectedService userEmail
       conversationHistory isLoading initialized emailInput messageInput
       messagesContainer errorMessage showTyping push_exchange
       set_emailInput set_messageInput set_messagesContainer
       set_errorMessage] in *.

Section Loading.
Context {engine : Engine}.

Lemma loading_tracks_facts (p p' : Page) :
  loading_facts p' = loading_facts p ->
  button_tracks p /\ typing_tracks p ->
  button_tracks p' /\ typing_tracks p'.
Proof.
  unfold loading_facts, button_tracks, typing_tracks, send_disabled.
  intros [= Hb Ht Hm Hl] [Hbutton Htyping]. rewrite Hb, Ht, Hm, Hl.
  now split.
Qed.

Lemma showTyping_tracks (show : bool) (p : Page) :
  button_tracks (page_showTyping show p) /\
  typing_tracks (page_showTyping show p).
Proof.
  unfold button_tracks, typing_tracks, send_disabled. page_simpl. split.
  - intros d. destruct (sendButton (view p)); now intros [= <-].
  - intros h. destruct (typingIndicator (view p)); now intros [= <-].
Qed.

Lemma updateSendButtonState_tracks (p : Page) :
  typing_tracks p ->
  button_tracks (updateSendButtonState p) /\
  typing_tracks (updateSendButtonState p).
Proof.
  unfold button_tracks, typing_tracks, send_disabled. page_simpl.
  intros Ht. split; [|exact Ht].
  intros d. destruct (sendButton (view p)); now intros [= <-].
Qed.

Lemma showError_loading (msg : jsstring) (p : Page) :
  loading_facts (page_showError msg p) = loading_facts p.
Proof.
  unfold loading_facts. page_simpl. unfold showError.
  destruct (errorMessage (elements (world p))); reflexivity.
Qed.

Lemma addMessage_loading (r : Role) (c : value) (p p' : Page) :
  page_addMessage r c p = Normal p' -> loading_facts p' = loading_facts p.
Proof.
  rewrite Page_addMessage_world.
  destruct (addMessage r c (elements (world p))) as [els|e] eqn:E;
    [|discriminate].
  intros [= <-]. destruct (addMessage_inputs _ _ _ _ E) as [_ [Hm _]].
  unfold loading_facts. page_simpl. now rewrite Hm.
Qed.

Lemma or_unchanged_loading (r : Role) (c : value) (p : Page) :
  loading_facts (page_or_unchanged (page_addMessage r c p) p)
  = loading_facts p.
Proof.
  destruct (page_addMessage r c p) as [p'|e] eqn:E; [|reflexivity].
  now apply (addMessage_loading r c).
Qed.

Lemma selectService_loading (serviceType : jsstring) (p : Page) :
  loading_facts (page_selectService serviceType p) = loading_facts p.
Proof.
  unfold page_selectService.
  destruct (negb (validateEmail (elements (world p))) || _);
    [apply showError_loading|].
  destruct (table_lookup SERVICES serviceType) as [service| |].
  - now rewrite or_unchanged_loading.
  - now rewrite or_unchanged_loading.
  - now rewrite showError_loading.
Qed.

Lemma sendMessage_resume_tracks (msg : jsstring) (result : completion value)
  (p : Page) :
  button_tracks (page_sendMessage_resume msg result p) /\
  typing_tracks (page_sendMessage_resume msg result p).
Proof. unfold page_sendMessage_resume. apply showTyping_tracks. Qed.

Lemma sendMessage_tracks (p : Page) :
  button_tracks p /\ typing_tracks p ->
  button_tracks (page_sendMessage p) /\ typing_tracks (page_sendMessage p).
Proof.
  intros Hp. unfold page_sendMessage.
  destruct (negb _ || _ || _); [exact Hp|].
  match goal with
  | |- context [page_addMessage user ?c ?q] =>
      destruct (page_addMessage user c q) as [p2|e] eqn:E;
      assert (Hq : button_tracks q /\ typing_tracks q)
  end.
  - apply updateSendButtonState_tracks. exact (proj2 Hp).
  - destruct (callAPI_start _ _) as [q|error].
    + apply (loading_tracks_facts (page_showTyping true p2));
        [reflexivity | apply showTyping_tracks].
    + apply sendMessage_resume_tracks.
  - apply updateSendButtonState_tracks. exact (proj2 Hp).
  - exact Hq.
Qed.

Lemma validateEmailInput_loading (p : Page) :
  loading_facts (validateEmailInput p) = loading_facts p.
Proof.
  unfold loading_facts, validateEmailInput. cbv zeta.
  destruct (emailError (view p)) as [[text hidden]|];
    [destruct (negb _ && _)|]; reflexivity.
Qed.

Lemma resetToWelcome_tracks (p : Page) :
  button_tracks (page_resetToWelcome p) /\
  typing_tracks (page_resetToWelcome p).
Proof.
  unfold page_resetToWelcome. cbv zeta.
  match goal with
  | |- context [page_showTyping false ?q] =>
      apply (loading_tracks_facts (page_showTyping false q));
      [|apply showTyping_tracks]
  end.
  match goal with
  | |- context [validateEmailInput ?q] =>
      transitivity (loading_facts (validateEmailInput q));
      [reflexivity | now rewrite validateEmailInput_loading]
  end.
Qed.

Lemma act_tracks (p : Page) (a : Action) :
  button_tracks p /\ typing_tracks p ->
  button_tracks (act p a) /\ typing_tracks (act p a).
Proof.
  intros Hp.
  destruct a as [v | v | service | | | | | | | | i o]; cbn [act].
  - destruct (emailInput (elements (world p))); [|exact Hp].
    apply (loading_tracks_facts p); [|exact Hp].
    now rewrite validateEmailInput_loading.
  - destruct (messageInput (elements (world p))); [|exact Hp].
    apply updateSendButtonState_tracks. exact (proj2 Hp).
  - destruct (is_nil service); [exact Hp|].
    apply (loading_tracks_facts p); [apply selectService_loading | exact Hp].
  - now apply sendMessage_tracks.
  - apply resetToWelcome_tracks.
  - destruct (initialized _); [apply resetToWelcome_tracks | exact Hp].
  - apply (loading_tracks_facts p); [reflexivity | exact Hp].
  - destruct (errorTimeout (view p)); [|exact Hp].
    apply (loading_tracks_facts p); [reflexivity | exact Hp].
  - apply (loading_tracks_facts p); [reflexivity | exact Hp].
  - apply (loading_tracks_facts p); [apply showError_loading | exact Hp].
  - unfold page_settle.
    destruct (nth_error _ i); [apply sendMessage_resume_tracks | exact Hp].
Qed.

Lemma reachable_tracks (p : Page) :
  page_reachable p -> button_tracks p /\ typing_tracks p.
Proof.
  induction 1 as [document v | p a Hp IH].
  - apply resetToWelcome_tracks.
  - now apply act_tracks.
Qed.

End Loading.

(** ** The service cards, the views and the error toast *)

Section Layout.
Context {engine : Engine}.

Lemma same_layout_refl (p : Page) : same_layout p p.
Proof. unfold same_layout. repeat split. now left. Qed.

Lemma showError_layout (msg : jsstring) (p : Page) :
  same_layout p (page_showError msg p).
Proof.
  unfold same_layout. page_simpl. repeat split.
  - unfold showError. now destruct (errorMessage (elements (world p))).
  - now right.
Qed.

Lemma same_layout_trans (p q r : Page) :
  same_layout p q -> same_layout q r -> same_layout p r.
Proof.
  unfold same_layout.
  intros [E1 [C1 [W1 [V1 [I1 T1]]]]] [E2 [C2 [W2 [V2 [I2 T2]]]]].
  rewrite E2, C2, W2, V2, I2. repeat split; auto.
  destruct T1 as [[A1 B1] | [A1 B1]], T2 as [[A2 B2] | [A2 B2]];
    rewrite A2, B2; try rewrite A1; try rewrite B1; auto.
  right. split; [|reflexivity].
  now destruct (errorToast (view p)).
Qed.

Lemma addMessage_layout (r : Role) (c : value) (p : Page) :
  same_layout p (page_or_unchanged (page_addMessage r c p) p).
Proof.
  unfold page_or_unchanged. rewrite Page_addMessage_world.
  destruct (addMessage r c (elements (world p))) as [els|e] eqn:E;
    [|apply same_layout_refl].
  destruct (addMessage_inputs _ _ _ _ E) as [He _].
  unfold same_layout. page_simpl. repeat split; auto.
Qed.

Lemma showTyping_layout (show : bool) (p : Page) :
  same_layout p (page_showTyping show p).
Proof. unfold same_layout. page_simpl. repeat split. now left. Qed.

Lemma sendMessage_resume_layout (msg : jsstring) (result : completion value)
  (p : Page) :
  same_layout p (page_sendMessage_resume msg result p).
Proof.
  unfold page_sendMessage_resume.
  assert (Hcatch : forall error,
             same_layout p (page_sendMessage_catch error p)).
  { intros error. unfold page_sendMessage_catch.
    eapply same_layout_trans; [apply showError_layout|].
    apply addMessage_layout. }
  eapply same_layout_trans; [|apply showTyping_layout].
  destruct result as [response|error]; [|apply Hcatch].
  pose proof (addMessage_layout assistant response p) as Hadd.
  unfold page_or_unchanged in Hadd.
  destruct (page_addMessage assistant response p) as [p1|e]; [|apply Hcatch].
  eapply same_layout_trans; [exact Hadd|].
  unfold same_layout. page_simpl. repeat split. now left.
Qed.

Lemma sendMessage_layout (p : Page) :
  same_layout p (page_sendMessage p).
Proof.
  unfold page_sendMessage.
  destruct (negb _ || _ || _); [apply same_layout_refl|].
  match goal with
  | |- context [page_addMessage user ?c ?q] =>
      assert (Hq : same_layout p q)
        by (unfold same_layout; page_simpl; repeat split; now left);
      pose proof (addMessage_layout user c q) as Hadd;
      unfold page_or_unchanged in Hadd;
      destruct (page_addMessage user c q) as [p2|e]
  end; [|exact Hq].
  assert (H2 : same_layout p p2) by exact (same_layout_trans _ _ _ Hq Hadd).
  assert (H3 : same_layout p (page_showTyping true p2))
    by (eapply same_layout_trans; [exact H2 | apply showTyping_layout]).
  destruct (callAPI_start _ _) as [q|error].
  - eapply same_layout_trans; [exact H3|].
    unfold same_layout. page_simpl. repeat split. now left.
  - eapply same_layout_trans; [exact H3 | apply sendMessage_resume_layout].
Qed.

Lemma settle_layout (i : nat) (o : FetchOutcome) (p : Page) :
  same_layout p (page_settle i o p).
Proof.
  unfold page_settle.
  destruct (nth_error _ i) as [q|]; [|apply same_layout_refl].
  eapply same_layout_trans; [|apply sendMessage_resume_layout].
  unfold same_layout. page_simpl. repeat split. now left.
Qed.


Lemma cards_track_facts (p p' : Page) :
  emailError (view p') = emailError (view p) ->
  serviceCards (view p') = serviceCards (view p) ->
  emailInput (elements (world p')) = emailInput (elements (world p)) ->
  cards_track p -> cards_track p'.
Proof.
  unfold cards_track. cbv zeta. intros -> -> Hin.
  rewrite (validateEmail_emailInput _ _ Hin), Hin. exact (fun H => H).
Qed.

Lemma cards_track_layout (p p' : Page) :
  same_layout p p' -> cards_track p -> cards_track p'.
Proof.
  intros [He [Hc [_ [_ [Hin _]]]]]. now apply cards_track_facts.
Qed.

Lemma toast_layout (p p' : Page) :
  same_layout p p' -> toast_has_timer p -> toast_has_timer p'.
Proof.
  unfold toast_has_timer.
  intros [_ [_ [_ [_ [_ [[-> ->] | [_ ->]]]]]]]; auto.
Qed.

Lemma views_layout (p p' : Page) :
  same_layout p p' ->
  (initialized (appState (world p)) = true ->
   initialized (appState (world p')) = true) ->
  views_track p -> views_track p'.
Proof.
  unfold views_track. intros [_ [_ [-> [-> _]]]] Hinit [H1 H2].
  split; [exact H1 | auto].
Qed.

Lemma valid_and_nonempty (els : Elements) :
  validateEmail els
  && negb (is_nil (string_of (option_map trim (emailInput els))))
  = validateEmail els.
Proof.
  destruct (validateEmail els) eqn:E; [|reflexivity].
  apply validateEmail_nonempty in E.
  now destruct (option_map trim (emailInput els)) as [[|c rest]|].
Qed.

Lemma validateEmailInput_cards (p : Page) :
  cards_track (validateEmailInput p).
Proof.
  unfold cards_track, validateEmailInput. cbv zeta.
  rewrite valid_and_nonempty.
  assert (Hcards : forall cards : list bool,
             Forall (fun d => d = negb (validateEmail (elements (world p))))
               (map (fun _ => negb (validateEmail (elements (world p))))
                  cards)).
  { intros cards. apply Forall_forall. intros d Hd. apply in_map_iff in Hd.
    now destruct Hd as [x [<- _]]. }
  destruct (emailError (view p)) as [[text hidden]|] eqn:Eerr.
  - destruct (negb (validateEmail (elements (world p))) && _) eqn:Eshow;
      page_simpl; (split; [apply Hcards|]); intros t h [= <- <-].
    + split; [|reflexivity].
      apply andb_true_iff in Eshow as [Hv Hn].
      apply negb_true_iff in Hv, Hn. now rewrite Hv, Hn.
    + split; [|discriminate].
      apply andb_false_iff in Eshow as [Hv | Hn].
      * apply negb_false_iff in Hv. now rewrite Hv.
      * apply negb_false_iff in Hn. rewrite Hn. now rewrite orb_true_r.
  - page_simpl. split; [apply Hcards|]. rewrite Eerr. discriminate.
Qed.

Lemma addMessage_appState (r : Role) (c : value) (p : Page) :
  appState (world (page_or_unchanged (page_addMessage r c p) p))
  = appState (world p).
Proof.
  unfold page_or_unchanged. rewrite Page_addMessage_world.
  now destruct (addMessage r c (elements (world p))).
Qed.

Lemma selectService_tracks (serviceType : jsstring) (p : Page) :
  cards_track p /\ views_track p /\ toast_has_timer p ->
  cards_track (page_selectService serviceType p) /\
  views_track (page_selectService serviceType p) /\
  toast_has_timer (page_selectService serviceType p).
Proof.
  intros [Hc [Hv Ht]]. unfold page_selectService.
  destruct (negb (validateEmail (elements (world p))) || _).
  - pose proof (showError_layout
                  (lit "Please enter a valid email address first.") p) as Hl.
    split; [|split].
    + now apply (cards_track_layout p).
    + now apply (views_layout p).
    + now apply (toast_layout p).
  - assert (Hshown : forall c q,
               cards_track q -> toast_has_timer q ->
               welcomeView (view q)
               = class_hidden true (welcomeView (view p)) ->
               chatView (view q)
               = class_hidden false (chatView (view p)) ->
               initialized (appState (world q)) = true ->
               let q' := page_or_unchanged (page_addMessage assistant c q) q in
               cards_track q' /\ views_track q' /\ toast_has_timer q').
    { intros c q Hcq Htq Hw Hch Hinit. cbv zeta.
      pose proof (addMessage_layout assistant c q) as Hl.
      split; [|split].
      - now apply (cards_track_layout q).
      - apply (views_layout q); [exact Hl | |].
        + intros _. now rewrite addMessage_appState.
        + unfold views_track. rewrite Hw, Hch. split; [|auto].
          intros welcome chat.
          destruct (welcomeView (view p)),
            (chatView (view p)); cbn; try discriminate.
          now intros [= <-] [= <-].
      - now apply (toast_layout q). }
    destruct (table_lookup SERVICES serviceType) as [service| |].
    + apply Hshown; try reflexivity; [now apply (cards_track_facts p) | exact Ht].
    + apply Hshown; try reflexivity; [now apply (cards_track_facts p) | exact Ht].
    + match goal with
      | |- context [page_showError ?m ?q] =>
          pose proof (showError_layout m q) as Hl
      end.
      split; [|split].
      * apply (cards_track_layout _ _ Hl). now apply (cards_track_facts p).
      * apply (views_layout _ _ Hl); [auto|].
        destruct Hv as [H1 H2]. split; [exact H1 | auto].
      * apply (toast_layout _ _ Hl). exact Ht.
Qed.

Lemma validateEmailInput_rest (p : Page) :
  welcomeView (view (validateEmailInput p))
  = welcomeView (view p) /\
  chatView (view (validateEmailInput p))
  = chatView (view p) /\
  errorToast (view (validateEmailInput p))
  = errorToast (view p) /\
  errorTimeout (view (validateEmailInput p))
  = errorTimeout (view p) /\
  world (validateEmailInput p) = world p.
Proof.
  unfold validateEmailInput. cbv zeta.
  destruct (emailError (view p)) as [[text hidden]|];
    [destruct (negb _ && _)|]; repeat split.
Qed.

Lemma resetToWelcome_layout_tracks (p : Page) :
  cards_track (page_resetToWelcome p) /\
  views_track (page_resetToWelcome p) /\
  toast_has_timer (page_resetToWelcome p).
Proof.
  unfold page_resetToWelcome. cbv zeta. split; [|split].
  - match goal with
    | |- context [validateEmailInput ?q] =>
        apply (cards_track_facts (validateEmailInput q));
        [reflexivity | reflexivity | reflexivity |
         apply validateEmailInput_cards]
    end.
  - unfold views_track.
    match goal with
    | |- context [validateEmailInput ?q] =>
        destruct (validateEmailInput_rest q) as [Hw [Hc [_ [_ Hworld]]]]
    end.
    cbn [view world set_views welcomeView chatView].
    rewrite Hw, Hc, Hworld. page_simpl. split.
    + intros welcome chat.
      destruct (welcomeView (view p)),
        (chatView (view p)); cbn; try discriminate.
      now intros [= <-] [= <-].
    + destruct (welcomeView (view p)),
        (chatView (view p)); cbn; intros [H | H]; discriminate.
  - unfold toast_has_timer.
    match goal with
    | |- context [validateEmailInput ?q] =>
        destruct (validateEmailInput_rest q) as [_ [_ [Ht [_ _]]]]
    end.
    cbn [view set_views errorToast errorTimeout].
    rewrite Ht. page_simpl.
    destruct (errorToast (view p)); cbn; discriminate.
Qed.

Lemma act_layout_tracks (p : Page) (a : Action) :
  cards_track p /\ views_track p /\ toast_has_timer p ->
  cards_track (act p a) /\ views_track (act p a) /\
  toast_has_timer (act p a).
Proof.
  intros Hp.
  assert (Hsame : forall p',
             same_layout p p' ->
             (initialized (appState (world p)) = true ->
              initialized (appState (world p')) = true) ->
             cards_track p' /\ views_track p' /\ toast_has_timer p').
  { intros p' Hl Hinit. destruct Hp as [Hc [Hv Ht]]. split; [|split].
    - now apply (cards_track_layout p).
    - now apply (views_layout p).
    - now apply (toast_layout p). }
  destruct a as [v | v | service | | | | | | | | i o]; cbn [act].
  - destruct (emailInput (elements (world p))); [|exact Hp].
    destruct Hp as [_ [Hv Ht]]. split; [apply validateEmailInput_cards|].
    match goal with
    | |- context [validateEmailInput ?q] =>
        destruct (validateEmailInput_rest q) as [Hw [Hch [Hto [Hti Hworld]]]]
    end.
    split.
    + unfold views_track. rewrite Hw, Hch, Hworld. exact Hv.
    + unfold toast_has_timer. rewrite Hto, Hti. exact Ht.
  - destruct (messageInput (elements (world p))); [|exact Hp].
    apply Hsame; [|auto].
    unfold same_layout. page_simpl. repeat split. now left.
  - destruct (is_nil service); [exact Hp|]. now apply selectService_tracks.
  - apply Hsame; [apply sendMessage_layout|].
    rewrite Page_sendMessage_world. now rewrite sendMessage_initialized.
  - apply resetToWelcome_layout_tracks.
  - destruct (initialized _); [apply resetToWelcome_layout_tracks | exact Hp].
  - destruct Hp as [Hc [Hv Ht]]. split; [exact Hc|]. split; [exact Hv|].
    unfold toast_has_timer. page_simpl.
    destruct (errorToast (view p)); cbn; discriminate.
  - destruct (errorTimeout (view p)); [|exact Hp].
    destruct Hp as [Hc [Hv Ht]]. split; [exact Hc|]. split; [exact Hv|].
    unfold toast_has_timer. page_simpl.
    destruct (errorToast (view p)); cbn; discriminate.
  - destruct Hp as [Hc [Hv Ht]]. split; [exact Hc|]. split; [exact Hv|].
    unfold toast_has_timer. page_simpl.
    destruct (errorToast (view p)); cbn; discriminate.
  - apply Hsame; [apply showError_layout | auto].
  - apply Hsame; [apply settle_layout|].
    rewrite Page_settle_world. now rewrite settle_initialized.
Qed.

Lemma reachable_layout_tracks (p : Page) :
  page_reachable p ->
  cards_track p /\ views_track p /\ toast_has_timer p.
Proof.
  induction 1 as [document v | p a Hp IH].
  - apply resetToWelcome_layout_tracks.
  - now apply act_layout_tracks.
Qed.

End Layout.

(** ** More on runs *)

Section More.
Context {engine : Engine}.

Lemma steady_reachable (w : World) : steady w -> reachable w.
Proof.
  induction 1 as [document | w Hw IH Hidle | w e Hw IH He].
  - constructor.
  - apply (reachable_step w ResetToWelcome IH).
  - now constructor.
Qed.

(** X12. In the runs in which the page is only reset while no request is
    in flight, a page that is not initialized is in the initial state:
    nothing is selected, the history is empty, nothing is loading and no
    request is in flight. *)
Theorem unselected_page_at_rest (w : World) :
  steady w ->
  initialized (appState w) = false ->
  appState w = mkAppState None [] [] false false /\ inflight w = [].
Proof.
  intros Hw Hinit.
  destruct (steady_unselected w Hw Hinit) as [Hh Hfl].
  split; [|exact Hfl].
  pose proof (session_state_consistent w (steady_reachable w Hw)) as Hs.
  unfold session_consistent in Hs. rewrite Hinit in Hs. destruct Hs as [Hsel Hem].
  destruct (steady_invariant w Hw) as [[Hload _] | [_ [p Hp]]];
    [|rewrite Hfl in Hp; discriminate].
  destruct (appState w) as [sel em h load init]. cbn in *. now subst.
Qed.

(** X9. When [fetch] fails with the TypeError "Failed to fetch", [callAPI]
    throws "Cannot connect to API server. Please ensure it is running and
    accessible." in its place; that message does not contain "Failed to
    fetch", so what is reported is the fixed "Sorry, I encountered an error.
    Please try again."; the apology is rendered, the history is untouched,
    [isLoading] is false and the request has left the requests in flight. *)
Theorem fetch_failure_outcome (i : nat) (p : Pending) (w : World) :
  nth_error (inflight w) i = Some p ->
  let w' := settle i (FetchRejected (TypeError (lit "Failed to fetch"))) w in
  callAPI_resume p (FetchRejected (TypeError (lit "Failed to fetch")))
    (appState w)
  = Throw (new_Error
             (lit "Cannot connect to API server. Please ensure it is running and accessible.")) /\
  errorMessage (elements w') =
    option_map (fun _ => lit "Sorry, I encountered an error. Please try again.")
      (errorMessage (elements w)) /\
  messagesContainer (elements w') =
    option_map (fun shown => shown ++ [(assistant, apology)])
      (messagesContainer (elements w)) /\
  conversationHistory (appState w') = conversationHistory (appState w) /\
  isLoading (appState w') = false /\
  inflight w' = remove_nth i (inflight w).
Proof.
  intros Hnth. cbv zeta. split; [reflexivity|].
  unfold settle. rewrite Hnth.
  change (callAPI_resume p (FetchRejected (TypeError (lit "Failed to fetch")))
            (appState w))
    with (@Throw value
            (new_Error
               (lit "Cannot connect to API server. Please ensure it is running and accessible."))).
  rewrite sendMessage_resume_throw.
  change (errorMsg _)
    with (lit "Sorry, I encountered an error. Please try again.").
  cbn [appState elements inflight showTyping conversationHistory isLoading].
  unfold with_message, showError.
  destruct (elements w) as [ei mi mc em].
  cbn [set_messagesContainer set_errorMessage messagesContainer errorMessage].
  destruct em as [e|], mc as [shown|]; cbn; repeat split.
Qed.

(** X15. For a body that is [null], reading the first field throws a
    TypeError; for a body that is a boolean, a number, a string or an array,
    no field is found and the fallback text is returned. *)
Theorem read_response_not_an_object (app : AppState) (data : value) :
  selectedService app = Some timesheet \/ selectedService app = Some hr_policy ->
  (data = VNull ->
   exists key,
     read_response app data = Throw (TypeError (cannot_read_message key))) /\
  ((exists b, data = VBool b) \/ (exists n, data = VNum n) \/
   (exists s, data = VStr s) \/ (exists items, data = VArr items) ->
   read_response app data = Normal (VStr fallback)).
Proof.
  intros Hsel. unfold read_response, selected.
  destruct Hsel as [-> | ->].
  - change (eqb timesheet timesheet) with true. cbv iota. split.
    + intros ->. eexists. reflexivity.
    + intros [[b ->] | [[n ->] | [[s ->] | [items ->]]]]; reflexivity.
  - change (eqb hr_policy timesheet) with false.
    change (eqb hr_policy hr_policy) with true. cbv iota. split.
    + intros ->. eexists. reflexivity.
    + intros [[b ->] | [[n ->] | [[s ->] | [items ->]]]]; reflexivity.
Qed.

(** X18. On every page that can be reached, the send button is disabled
    exactly when the message input is blank or a request is loading. *)
Theorem send_button_tracks_input (p : Page) (disabled : bool) :
  page_reachable p ->
  sendButton (view p) = Some disabled ->
  disabled =
    negb (nonempty (option_map trim (messageInput (elements (world p)))))
    || isLoading (appState (world p)).
Proof.
  intros Hp.
  assert (Hall : button_tracks p /\ typing_tracks p).
  { induction Hp as [document v | p a Hp IH].
    - apply resetToWelcome_tracks.
    - now apply act_tracks. }
  apply (proj1 Hall).
Qed.

(** X19. On every page that can be reached, the typing indicator is
    hidden exactly when no request is loading. *)
Theorem typing_indicator_tracks_loading (p : Page) (hidden : bool) :
  page_reachable p ->
  typingIndicator (view p) = Some hidden ->
  hidden = negb (isLoading (appState (world p))).
Proof.
  intros Hp.
  assert (Hall : button_tracks p /\ typing_tracks p).
  { induction Hp as [document v | p a Hp IH].
    - apply resetToWelcome_tracks.
    - now apply act_tracks. }
  apply (proj2 Hall).
Qed.

(** X20. On every page that can be reached, every service card is
    disabled exactly when [validateEmail] rejects the email input, and the
    email error line is shown, with the text "Please enter a valid email
    address", exactly when the input is rejected and not blank. *)
Theorem service_cards_track_email (p : Page) :
  page_reachable p ->
  Forall (fun disabled => disabled = negb (validateEmail (elements (world p))))
    (serviceCards (view p)) /\
  forall text hidden,
    emailError (view p) = Some (text, hidden) ->
    hidden = (validateEmail (elements (world p))
              || is_nil (string_of (option_map trim
                                      (emailInput (elements (world p)))))) /\
    (hidden = false -> text = lit "Please enter a valid email address").
Proof.
  intros Hp.
  assert (Hall : cards_track p /\ views_track p /\ toast_has_timer p).
  { induction Hp as [document v | p a Hp IH].
    - apply resetToWelcome_layout_tracks.
    - now apply act_layout_tracks. }
  exact (proj1 Hall).
Qed.

(** X21. On every page that can be reached, the chat view is hidden
    exactly when the welcome view is shown, and the chat view is only shown
    when the state is initialized. *)
Theorem views_are_exclusive (p : Page) :
  page_reachable p ->
  (forall welcome chat,
      welcomeView (view p) = Some welcome ->
      chatView (view p) = Some chat ->
      chat = negb welcome) /\
  (chatView (view p) = Some false \/ welcomeView (view p) = Some true ->
   initialized (appState (world p)) = true).
Proof.
  intros Hp.
  assert (Hall : cards_track p /\ views_track p /\ toast_has_timer p).
  { induction Hp as [document v | p a Hp IH].
    - apply resetToWelcome_layout_tracks.
    - now apply act_layout_tracks. }
  exact (proj1 (proj2 Hall)).
Qed.

(** X22. On every page that can be reached, whenever the error toast is
    visible the timer that hides it is still to fire. *)
Theorem visible_toast_has_timer (p : Page) :
  page_reachable p ->
  errorToast (view p) = Some false ->
  errorTimeout (view p) = true.
Proof.
  intros Hp.
  assert (Hall : cards_track p /\ views_track p /\ toast_has_timer p).
  { induction Hp as [document v | p a Hp IH].
    - apply resetToWelcome_layout_tracks.
    - now apply act_layout_tracks. }
  exact (proj2 (proj2 Hall)).
Qed.

Lemma page_reachable_run (p : Page) (actions : list Action) :
  page_reachable p -> page_reachable (fold_left act actions p).
Proof.
  revert p. induction actions as [|a actions IH]; intros p Hp; [exact Hp|].
  cbn [fold_left]. apply IH. now constructor.
Qed.

End More.

(** ** The extra properties at concrete pages *)

Lemma reachable_timesheet_waiting : reachable (engine := v8) timesheet_waiting.
Proof.
  apply (reachable_step (engine := v8) timesheet_ready SendMessage).
  apply reachable_run. apply reachable_loaded.
Qed.

Lemma page_reachable_chat_page : page_reachable (engine := v8) chat_page.
Proof. apply page_reachable_run. apply page_reachable_loaded. Qed.

Lemma page_reachable_failed_page : page_reachable (engine := v8) failed_page.
Proof. apply page_reachable_run. apply page_reachable_chat_page. Qed.

Lemma sendMessage_without_configuration_witness :
  isLoading (appState (sendMessage (engine := v8) payroll_ready)) = false /\
  inflight (sendMessage (engine := v8) payroll_ready) = [].
Proof.
  assert (Hcfg : forall cfg,
             table_lookup API_CONFIG (selected_key (appState payroll_ready))
             <> Own cfg) by (intros cfg; discriminate).
  assert (Hmsg : trim (lit "hi") <> []) by discriminate.
  destruct (sendMessage_without_configuration (engine := v8) (lit "hi")
              payroll_ready Hcfg eq_refl eq_refl eq_refl Hmsg)
    as [Hfl [Hload _]].
  split; [exact Hload | exact Hfl].
Defined.


Lemma session_state_consistent_witness :
  initialized (appState timesheet_waiting) = true /\
  email_shape (userEmail (appState timesheet_waiting)).
Proof.
  split; [reflexivity|].
  exact (proj2 (session_state_consistent (engine := v8) timesheet_waiting
                  reachable_timesheet_waiting)).
Defined.

Lemma sources_without_join_witness :
  length_positive (engine := v8) (VObj [(lit "length", VStr (lit "5"))])
  = Normal true /\
  read_response (engine := v8) (appState hr_policy_waiting)
    (VObj [(lit "answer", VStr (lit "A"));
           (lit "sources", VObj [(lit "length", VStr (lit "5"))])])
  = Throw (TypeError (lit "data.sources.join is not a function")).
Proof.
  assert (Hlength : length_positive (engine := v8)
                      (VObj [(lit "length", VStr (lit "5"))])
                    = Normal true) by (vm_compute; reflexivity).
  split; [exact Hlength|].
  apply (sources_without_join (engine := v8) (appState hr_policy_waiting)
           [(lit "answer", VStr (lit "A"));
            (lit "sources", VObj [(lit "length", VStr (lit "5"))])]
           (VObj [(lit "length", VStr (lit "5"))]));
    [reflexivity | reflexivity | intros items; discriminate | exact Hlength].
Defined.

Lemma status_classification_witness :
  response_ok 503 = false /\
  exists error,
    callAPI_resume (engine := v8)
      (mkPending (lit "hi") timesheet_config
         (TimesheetPayload (lit "a@b.co") (lit "hi")))
      (FetchResponse 503 (Normal VNull)) (appState timesheet_waiting)
    = Throw error /\
    errorMsg error = lit "Sorry, I encountered an error. Please try again.".
Proof.
  split; [reflexivity|].
  apply (status_classification (engine := v8)
           (mkPending (lit "hi") timesheet_config
              (TimesheetPayload (lit "a@b.co") (lit "hi")))
           503 (Normal VNull) (appState timesheet_waiting));
    [left; reflexivity | reflexivity | reflexivity].
Defined.

Lemma fetch_failure_outcome_witness :
  errorMessage
    (elements
       (settle (engine := v8) 0
          (FetchRejected (TypeError (lit "Failed to fetch")))
          timesheet_waiting))
  = Some (lit "Sorry, I encountered an error. Please try again.").
Proof.
  refine (proj1 (proj2
            (fetch_failure_outcome (engine := v8) 0
               (mkPending (lit "hi") timesheet_config
                  (TimesheetPayload (lit "a@b.co") (lit "hi")))
               timesheet_waiting _))).
  reflexivity.
Defined.

Lemma response_after_reset_witness :
  conversationHistory
    (appState
       (settle (engine := v8) 0
          (FetchResponse 200
             (Normal (VObj [(lit "response", VStr (lit "ok"))])))
          (resetToWelcome timesheet_waiting)))
  = [ mkTurn user (VStr (lit "hi")); mkTurn assistant (VStr fallback) ].
Proof.
  refine (f_equal conversationHistory
            (proj1
               (response_after_reset (engine := v8) 0
                  (mkPending (lit "hi") timesheet_config
                     (TimesheetPayload (lit "a@b.co") (lit "hi")))
                  200 (VObj [(lit "response", VStr (lit "ok"))])
                  timesheet_waiting _ _))); reflexivity.
Defined.

Lemma unselected_page_at_rest_witness :
  steady (engine := v8) (loaded full_document) /\
  inflight (loaded full_document) = [].
Proof.
  split; [apply steady_loaded|].
  apply (unselected_page_at_rest (engine := v8) (loaded full_document));
    [apply steady_loaded | reflexivity].
Defined.

Lemma validateEmail_accepts_only_witness :
  validateEmail (elements (page_with_email (lit " a@b.co "))) = true /\
  exists raw,
    emailInput (elements (page_with_email (lit " a@b.co "))) = Some raw /\
    count_occ N.eq_dec (trim raw) 64 = 1%nat /\
    Forall (fun c => is_space c = false) (trim raw) /\
    (5 <= List.length (trim raw))%nat.
Proof.
  split; [reflexivity|].
  apply (validateEmail_accepts_only
           (elements (page_with_email (lit " a@b.co ")))).
  reflexivity.
Defined.

Lemma read_response_truthy_witness :
  read_response (engine := v8) (appState timesheet_waiting)
    (VObj [(lit "response", VStr [])])
  = Normal (VStr fallback) /\
  truthy (VStr fallback) = true.
Proof.
  split; [reflexivity|].
  apply (read_response_truthy (engine := v8) (appState timesheet_waiting)
           (VObj [(lit "response", VStr [])])).
  reflexivity.
Defined.

Lemma read_response_not_an_object_witness :
  selectedService (appState hr_policy_waiting) = Some hr_policy /\
  read_response (engine := v8) (appState hr_policy_waiting)
    (VArr [VStr (lit "A")])
  = Normal (VStr fallback).
Proof.
  split; [reflexivity|].
  apply (proj2 (read_response_not_an_object (engine := v8)
                  (appState hr_policy_waiting) (VArr [VStr (lit "A")])
                  (or_intror eq_refl))).
  right. right. right. now exists [VStr (lit "A")].
Defined.

Lemma hr_policy_answer_with_sources_witness :
  read_response (engine := v8) (appState hr_policy_waiting)
    (VObj [(lit "answer", VStr (lit "See the handbook."));
           (lit "sources", VArr (map VStr [lit "handbook.pdf"]))])
  = Normal (VStr (lit "See the handbook." ++ [10; 10]
                  ++ lit "Sources: handbook.pdf")).
Proof.
  apply (hr_policy_answer_with_sources (engine := v8)
           (appState hr_policy_waiting)
           [(lit "answer", VStr (lit "See the handbook."));
            (lit "sources", VArr (map VStr [lit "handbook.pdf"]))]
           (lit "See the handbook.") [lit "handbook.pdf"]);
    solve [reflexivity | discriminate].
Defined.

Lemma timesheet_response_precedence_witness :
  read_response (engine := v8) (appState timesheet_waiting)
    (VObj [(lit "response", VStr []); (lit "message", VStr (lit "Saved."))])
  = Normal (VStr (lit "Saved.")).
Proof.
  apply (timesheet_response_precedence (engine := v8)
           (appState timesheet_waiting)
           [(lit "response", VStr []); (lit "message", VStr (lit "Saved."))]).
  reflexivity.
Defined.

Lemma send_button_tracks_input_witness :
  sendButton (view chat_page) = Some false /\
  false =
    negb (nonempty (option_map trim
                      (messageInput (elements (world chat_page)))))
    || isLoading (appState (world chat_page)).
Proof.
  split; [reflexivity|].
  apply (send_button_tracks_input (engine := v8) chat_page false
           page_reachable_chat_page).
  reflexivity.
Defined.

Lemma typing_indicator_tracks_loading_witness :
  typingIndicator (view chat_page) = Some true /\
  true = negb (isLoading (appState (world chat_page))).
Proof.
  split; [reflexivity|].
  apply (typing_indicator_tracks_loading (engine := v8) chat_page true
           page_reachable_chat_page).
  reflexivity.
Defined.

Lemma service_cards_track_email_witness :
  serviceCards (view chat_page) = [false; false] /\
  Forall (fun disabled =>
            disabled = negb (validateEmail (elements (world chat_page))))
    (serviceCards (view chat_page)).
Proof.
  split; [reflexivity|].
  exact (proj1 (service_cards_track_email (engine := v8) chat_page
                  page_reachable_chat_page)).
Defined.

Lemma views_are_exclusive_witness :
  chatView (view chat_page) = Some false /\
  initialized (appState (world chat_page)) = true.
Proof.
  split; [reflexivity|].
  apply (proj2 (views_are_exclusive (engine := v8) chat_page
                  page_reachable_chat_page)).
  left. reflexivity.
Defined.

Lemma visible_toast_has_timer_witness :
  errorToast (view failed_page) = Some false /\
  errorTimeout (view failed_page) = true.
Proof.
  split; [reflexivity|].
  apply (visible_toast_has_timer (engine := v8) failed_page
           page_reachable_failed_page).
  reflexivity.
Defined.
